(** * Relevance-ranked product search ([ProductModel.search])

    A shallow embedding of [src/models/product.model.ts] (the [search]
    method) together with the part of the [products] table of
    [src/db/schema] it reads.

    [search] sends one SQL statement to PostgreSQL.  The statement is built
    from operators of the store: [LOWER], [LIKE], [COALESCE], the full-text
    functions ([to_tsvector], [setweight], [||], [plainto_tsquery], [@@],
    [ts_rank]) and the [pg_trgm] functions ([similarity],
    [word_similarity]).  [LOWER], [LIKE] and [COALESCE] are modelled
    concretely on ASCII text; the full-text and trigram functions are an
    interface ([TextSearch]) every theorem is generic in, with one concrete
    store ([RefStore]) on which examples are evaluated.

    Text is [string] (one [ascii] per character); scores, which the store
    computes in floating point, are rationals ([Q]). *)

From Stdlib Require Import List String Ascii Bool NArith ZArith QArith.
From Stdlib Require Import Sorting.Sorted Sorting.Permutation.
From Stdlib Require Import Structures.OrderedTypeEx.
Import ListNotations.

Local Open Scope string_scope.

(** ** Text operators of the store *)

Module Pg.

(** [LOWER] on one character: [A]..[Z] are moved to [a]..[z]. *)
Definition is_upper (c : ascii) : bool :=
  ((65 <=? N_of_ascii c) && (N_of_ascii c <=? 90))%N.

Definition lower_char (c : ascii) : ascii :=
  if is_upper c then ascii_of_N (N_of_ascii c + 32) else c.

Fixpoint lower (s : string) : string :=
  match s with
  | EmptyString => EmptyString
  | String c s' => String (lower_char c) (lower s')
  end.

(** [COALESCE(x, d)]. *)
Definition coalesce (x : option string) (d : string) : string :=
  match x with
  | Some s => s
  | None => d
  end.

(** [s LIKE pat] with the default escape character: [%] stands for any
    run of characters, [_] for any one character, a backslash makes the
    next pattern character literal.  A pattern that ends in a lone
    backslash is rejected by the store; [like] answers [false] there, and
    [dangling_escape] below recognises such patterns. *)
Fixpoint like_from (pat : string) : string -> bool :=
  match pat with
  | EmptyString =>
      fun s => match s with EmptyString => true | String _ _ => false end
  | String c pat' =>
      if (c =? "%")%char then
        fix skip (s : string) : bool :=
          like_from pat' s
          || match s with
             | EmptyString => false
             | String _ s' => skip s'
             end
      else if (c =? "_")%char then
        fun s =>
          match s with
          | EmptyString => false
          | String _ s' => like_from pat' s'
          end
      else if (c =? "\")%char then
        match pat' with
        | EmptyString => fun _ => false
        | String d pat'' =>
            fun s =>
              match s with
              | EmptyString => false
              | String x s' => (x =? d)%char && like_from pat'' s'
              end
        end
      else
        fun s =>
          match s with
          | EmptyString => false
          | String x s' => (x =? c)%char && like_from pat' s'
          end
  end.

Definition like (s pat : string) : bool := like_from pat s.

(** Does the pattern end in a backslash that escapes nothing? *)
Fixpoint dangling_escape (pat : string) : bool :=
  match pat with
  | EmptyString => false
  | String c pat' =>
      if (c =? "\")%char then
        match pat' with
        | EmptyString => true
        | String _ pat'' => dangling_escape pat''
        end
      else dangling_escape pat'
  end.

(** The query holds no backslash, the escape character of [LIKE]. *)
Fixpoint no_escape (s : string) : bool :=
  match s with
  | EmptyString => true
  | String c s' => negb (c =? "\")%char && no_escape s'
  end.

(** Literal prefix and substring tests (what [LIKE] computes on a
    pattern free of [%], [_] and backslash). *)
Fixpoint starts_with (q s : string) : bool :=
  match q, s with
  | EmptyString, _ => true
  | String _ _, EmptyString => false
  | String c q', String d s' => (d =? c)%char && starts_with q' s'
  end.

Fixpoint contains (q s : string) : bool :=
  starts_with q s
  || match s with
     | EmptyString => false
     | String _ s' => contains q s'
     end.

End Pg.

(** ** Full-text and trigram functions of the store *)

(** Labels of [setweight]. *)
Inductive weight : Type := A | B | C | D.

(** The functions [search] calls and this repository does not define: the
    full-text functions under the ['english'] configuration and the
    [pg_trgm] similarities. *)
Class TextSearch : Type := {
  tsvector : Type;
  tsquery : Type;
  to_tsvector : string -> tsvector;
  setweight : tsvector -> weight -> tsvector;
  tsv_concat : tsvector -> tsvector -> tsvector;
  plainto_tsquery : string -> tsquery;
  ts_match : tsvector -> tsquery -> bool;
  ts_rank : tsvector -> tsquery -> Q;
  similarity : string -> string -> Q;
  word_similarity : string -> string -> Q
}.

(** ** The [products] table *)

(** A row of [products] ([interface Product]).  JSON columns are kept as
    their text, timestamps as seconds. *)
Record Product : Type := {
  id : string;
  subcategoryId : string;
  name : string;
  slug : string;
  description : option string;
  shortDescription : option string;
  price : option string;
  images : option (list string);
  coverImage : option string;
  pdfUrl : option string;
  specifications : option string;
  features : option (list string);
  seoKeywords : option (list string);
  staticPageUrl : option string;
  displayOrder : option string;
  isActive : bool;
  isFeatured : bool;
  createdAt : Z;
  updatedAt : Z
}.

Definition set_description (d : option string) (p : Product) : Product :=
  {| id := id p; subcategoryId := subcategoryId p; name := name p;
     slug := slug p; description := d;
     shortDescription := shortDescription p; price := price p;
     images := images p; coverImage := coverImage p; pdfUrl := pdfUrl p;
     specifications := specifications p; features := features p;
     seoKeywords := seoKeywords p; staticPageUrl := staticPageUrl p;
     displayOrder := displayOrder p; isActive := isActive p;
     isFeatured := isFeatured p; createdAt := createdAt p;
     updatedAt := updatedAt p |}.

Definition set_shortDescription (d : option string) (p : Product) : Product :=
  {| id := id p; subcategoryId := subcategoryId p; name := name p;
     slug := slug p; description := description p;
     shortDescription := d; price := price p;
     images := images p; coverImage := coverImage p; pdfUrl := pdfUrl p;
     specifications := specifications p; features := features p;
     seoKeywords := seoKeywords p; staticPageUrl := staticPageUrl p;
     displayOrder := displayOrder p; isActive := isActive p;
     isFeatured := isFeatured p; createdAt := createdAt p;
     updatedAt := updatedAt p |}.

(** An absent description or short description replaced by the empty
    text. *)
Definition null_as_empty (x : option string) : option string :=
  Some (Pg.coalesce x "").

Definition with_empty_texts (p : Product) : Product :=
  set_shortDescription (null_as_empty (shortDescription p))
    (set_description (null_as_empty (description p)) p).

(** ** The connection: one state, queries that can fail *)

(** What the driver rejects a query with. *)
Record DbError : Type := {
  err_code : string;
  err_message : string
}.

(** The store as [search] sees it: whether it can be reached, the rows of
    [products] in heap order, and how many statements it was sent. *)
Record Db : Type := {
  db_failure : option DbError;
  db_products : list Product;
  db_statements : nat
}.

(** An [async] computation against the store: it rejects with the store's
    error or resolves with a value, and leaves a store behind. *)
Definition Task (T : Type) : Type := Db -> (DbError + T) * Db.

Definition resolve {T : Type} (x : T) : Task T :=
  fun db => (inr x, db).

Definition await {T U : Type} (t : Task T) (k : T -> Task U) : Task U :=
  fun db =>
    match t db with
    | (inl e, db') => (inl e, db')
    | (inr x, db') => k x db'
    end.

Notation "x <- t ;; k" := (await t (fun x => k))
  (at level 61, t at next level, right associativity).

(** [ORDER BY key DESC]: rows with a larger key first.  The store
    promises no order among rows with equal keys; the model keeps them in
    the order of the scan. *)
Fixpoint insert_desc {T : Type} (key : T -> Q) (x : T) (l : list T) : list T :=
  match l with
  | [] => [x]
  | y :: l' =>
      if Qle_bool (key y) (key x) then x :: y :: l'
      else y :: insert_desc key x l'
  end.

Fixpoint order_by_desc {T : Type} (key : T -> Q) (l : list T) : list T :=
  match l with
  | [] => []
  | x :: l' => insert_desc key x (order_by_desc key l')
  end.

(** drizzle's [and(...)]: [undefined] conditions are dropped, the others
    must all hold. *)
Definition sql_and {T : Type} (conds : list (option (T -> bool))) (row : T) : bool :=
  forallb (fun c => match c with
                    | None => true
                    | Some f => f row
                    end) conds.

(** [db.select().from(products).where(w).orderBy(desc(k))]: one statement;
    a store that cannot be reached rejects it. *)
Definition select_from_products (w : Product -> bool) (k : Product -> Q)
  : Task (list Product) :=
  fun db =>
    let db' := {| db_failure := db_failure db;
                  db_products := db_products db;
                  db_statements := S (db_statements db) |} in
    match db_failure db with
    | Some e => (inl e, db')
    | None => (inr (order_by_desc k (filter w (db_products db))), db')
    end.

Definition Qlt_bool (x y : Q) : bool := negb (Qle_bool y x).

(** ** [ProductModel.search] *)

Section Search.

Context {TS : TextSearch}.

(** [`%${query}%`] *)
Definition searchPattern (query : string) : string :=
  "%" ++ query ++ "%".

(** Strategy 1: [LIKE] on name, description and short description. *)
Definition strategy_pattern (query : string) (p : Product) : bool :=
  Pg.like (Pg.lower (name p)) (Pg.lower (searchPattern query))
  || Pg.like (Pg.lower (Pg.coalesce (description p) ""))
       (Pg.lower (searchPattern query))
  || Pg.like (Pg.lower (Pg.coalesce (shortDescription p) ""))
       (Pg.lower (searchPattern query)).

(** The document of strategy 2: name [A], description [B], short
    description [C]. *)
Definition match_document (p : Product) : tsvector :=
  tsv_concat
    (tsv_concat
       (setweight (to_tsvector (name p)) A)
       (setweight (to_tsvector (Pg.coalesce (description p) "")) B))
    (setweight (to_tsvector (Pg.coalesce (shortDescription p) "")) C).

(** Strategy 2: full-text match. *)
Definition strategy_fulltext (query : string) (p : Product) : bool :=
  ts_match (match_document p) (plainto_tsquery query).

(** Strategy 3: trigram similarity above 0.2. *)
Definition strategy_trigram (query : string) (p : Product) : bool :=
  Qlt_bool (2 # 10) (similarity (Pg.lower (name p)) (Pg.lower query)).

(** Strategy 4: word similarity above 0.3. *)
Definition strategy_word (query : string) (p : Product) : bool :=
  Qlt_bool (3 # 10) (word_similarity (Pg.lower query) (Pg.lower (name p))).

(** The [sql`( ... OR ... OR ... )`] condition of [where]. *)
Definition match_clause (query : string) (p : Product) : bool :=
  strategy_pattern query p
  || strategy_fulltext query p
  || strategy_trigram query p
  || strategy_word query p.

(** The whole [where]: [and(includeInactive ? undefined : eq(isActive,
    true), sql`...`)]. *)
Definition where_clause (query : string) (includeInactive : bool)
  : Product -> bool :=
  sql_and
    [ (if includeInactive then None
       else Some (fun p => Bool.eqb (isActive p) true));
      Some (match_clause query) ].

(** The three [CASE WHEN ... THEN n ELSE 0 END] terms. *)
Definition exact_bonus (query : string) (p : Product) : Q :=
  if String.eqb (Pg.lower (name p)) (Pg.lower query) then 100 else 0.

Definition prefix_bonus (query : string) (p : Product) : Q :=
  if Pg.like (Pg.lower (name p)) (Pg.lower (query ++ "%")) then 50 else 0.

Definition contains_bonus (query : string) (p : Product) : Q :=
  if Pg.like (Pg.lower (name p)) (Pg.lower (searchPattern query))
  then 25 else 0.

(** The document [ts_rank] is given: name [A] and description [B], the
    expression of the [search_index] index of the schema. *)
Definition rank_document (p : Product) : tsvector :=
  tsv_concat
    (setweight (to_tsvector (name p)) A)
    (setweight (to_tsvector (Pg.coalesce (description p) "")) B).

Definition fulltext_rank (query : string) (p : Product) : Q :=
  ts_rank (rank_document p) (plainto_tsquery query).

(** The sum of [orderBy], with every term a parameter. *)
Definition composite (exact pre sub rank sim wsim : Q) : Q :=
  exact + pre + sub + rank * 10 + sim * 30 + wsim * 20.

(** The relevance expression of [orderBy(desc(sql`...`))]. *)
Definition relevance (query : string) (p : Product) : Q :=
  composite
    (exact_bonus query p)
    (prefix_bonus query p)
    (contains_bonus query p)
    (fulltext_rank query p)
    (similarity (Pg.lower (name p)) (Pg.lower query))
    (word_similarity (Pg.lower query) (Pg.lower (name p))).

(** The same sum with the prefix term taken out. *)
Definition relevance_without_prefix (query : string) (p : Product) : Q :=
  composite
    (exact_bonus query p)
    0
    (contains_bonus query p)
    (fulltext_rank query p)
    (similarity (Pg.lower (name p)) (Pg.lower query))
    (word_similarity (Pg.lower query) (Pg.lower (name p))).

Definition search (query : string) (includeInactive : bool)
  : Task (list Product) :=
  select_from_products (where_clause query includeInactive)
    (relevance query).

(** Two calls in a row, as a caller that repeats its request makes
    them. *)
Definition search_twice (query : string) (includeInactive : bool)
  : Task (list Product * list Product) :=
  r1 <- search query includeInactive ;;
  r2 <- search query includeInactive ;;
  resolve (r1, r2).

(** *** The specification's wording, for comparison *)

(** Strategy 1 as the specification words it: the lowercased query is a
    substring of the lowercased field, character for character. *)
Definition spec_strategy_substring (query : string) (p : Product) : bool :=
  Pg.contains (Pg.lower query) (Pg.lower (name p))
  || Pg.contains (Pg.lower query) (Pg.lower (Pg.coalesce (description p) ""))
  || Pg.contains (Pg.lower query)
       (Pg.lower (Pg.coalesce (shortDescription p) "")).

Definition spec_match (query : string) (p : Product) : bool :=
  spec_strategy_substring query p
  || strategy_fulltext query p
  || strategy_trigram query p
  || strategy_word query p.

(** The composite score as the specification words it: literal prefix
    and substring tests, and the rank of the document of strategy 2. *)
Definition spec_score (query : string) (p : Product) : Q :=
  composite
    (if String.eqb (Pg.lower (name p)) (Pg.lower query) then 100 else 0)
    (if Pg.starts_with (Pg.lower query) (Pg.lower (name p)) then 50 else 0)
    (if Pg.contains (Pg.lower query) (Pg.lower (name p)) then 25 else 0)
    (ts_rank (match_document p) (plainto_tsquery query))
    (similarity (Pg.lower (name p)) (Pg.lower query))
    (word_similarity (Pg.lower query) (Pg.lower (name p))).

End Search.

(** Descending order of a key along a list. *)
Definition sorted_desc {T : Type} (key : T -> Q) (l : list T) : Prop :=
  StronglySorted (fun x y => key y <= key x) l.

(** ** A concrete store for examples

    [RefStore] follows the documented behaviour of [pg_trgm] on ASCII
    text: a text is cut into words (runs of letters and digits), each word
    is padded with two blanks in front and one behind, and its trigrams are
    collected.  The full-text side is simplified: lexemes are the
    lowercased words (no stemming, no stop words), a query matches when
    all its lexemes occur, and the rank adds the weights of the
    occurrences. *)

Module RefStore.

Definition is_alnum (c : ascii) : bool :=
  let n := N_of_ascii c in
  ((48 <=? n) && (n <=? 57) || (65 <=? n) && (n <=? 90)
   || (97 <=? n) && (n <=? 122))%N.

(** Words of a text; [cur] is the word being read. *)
Fixpoint words_from (s cur : string) : list string :=
  match s with
  | EmptyString =>
      match cur with
      | EmptyString => []
      | String _ _ => [cur]
      end
  | String c s' =>
      if is_alnum c then words_from s' (cur ++ String c EmptyString)
      else
        match cur with
        | EmptyString => words_from s' EmptyString
        | String _ _ => cur :: words_from s' EmptyString
        end
  end.

Definition words (s : string) : list string :=
  words_from (Pg.lower s) EmptyString.

Fixpoint windows3 (s : string) : list string :=
  match s with
  | EmptyString => []
  | String a s1 =>
      match s1 with
      | String b (String c _) =>
          String a (String b (String c EmptyString)) :: windows3 s1
      | _ => []
      end
  end.

(** Trigrams of a text, in order of appearance. *)
Definition trigrams (s : string) : list string :=
  flat_map (fun w => windows3 ("  " ++ w ++ " ")) (words s).

Definition mem (t : string) (l : list string) : bool :=
  existsb (String.eqb t) l.

Fixpoint dedup (l : list string) : list string :=
  match l with
  | [] => []
  | t :: l' => if mem t l' then dedup l' else t :: dedup l'
  end.

(** Shared trigrams over all trigrams, for two duplicate-free sets. *)
Definition jaccard (ta tb : list string) : Q :=
  let shared := List.length (filter (fun t => mem t tb) ta) in
  match ta, tb with
  | [], _ | _, [] => 0
  | _ :: _, _ :: _ =>
      Z.of_nat shared
      # Pos.of_nat (List.length ta + List.length tb - shared)
  end.

Definition trgm_similarity (a b : string) : Q :=
  jaccard (dedup (trigrams a)) (dedup (trigrams b)).

Definition Qmax (x y : Q) : Q := if Qle_bool x y then y else x.

(** All runs of consecutive trigrams. *)
Fixpoint prefixes (l : list string) : list (list string) :=
  match l with
  | [] => []
  | t :: l' => [t] :: map (cons t) (prefixes l')
  end.

Fixpoint extents (l : list string) : list (list string) :=
  match l with
  | [] => []
  | _ :: l' => prefixes l ++ extents l'
  end.

(** The best similarity of the trigrams of [a] with a run of
    consecutive trigrams of [b]. *)
Definition trgm_word_similarity (a b : string) : Q :=
  fold_right
    (fun e best => Qmax (jaccard (dedup (trigrams a)) (dedup e)) best)
    0 (extents (trigrams b)).

Definition weight_value (w : weight) : Q :=
  match w with
  | A => 1
  | B => 4 # 10
  | C => 2 # 10
  | D => 1 # 10
  end.

Definition lexemes (s : string) : list (string * weight) :=
  map (fun w => (w, D)) (words s).

Definition relabel (v : list (string * weight)) (w : weight)
  : list (string * weight) :=
  map (fun e => (fst e, w)) v.

Definition matches (v : list (string * weight)) (q : list string) : bool :=
  match q with
  | [] => false
  | _ :: _ => forallb (fun t => mem t (map fst v)) q
  end.

Definition rank (v : list (string * weight)) (q : list string) : Q :=
  if matches v q then
    fold_right
      (fun e acc =>
         if mem (fst e) q then weight_value (snd e) / 10 + acc else acc)
      0 v
  else 0.

#[export] Instance store : TextSearch := {|
  tsvector := list (string * weight);
  tsquery := list string;
  to_tsvector := lexemes;
  setweight := relabel;
  tsv_concat := @app (string * weight);
  plainto_tsquery := words;
  ts_match := matches;
  ts_rank := rank;
  similarity := trgm_similarity;
  word_similarity := trgm_word_similarity
|}.

End RefStore.

(** ** Sample rows *)

Definition product (i n : string) (d sd : option string) (active : bool)
  : Product :=
  {| id := i; subcategoryId := "sub-1"; name := n; slug := i;
     description := d; shortDescription := sd; price := None;
     images := None; coverImage := None; pdfUrl := None;
     specifications := None; features := None; seoKeywords := None;
     staticPageUrl := None; displayOrder := None; isActive := active;
     isFeatured := false; createdAt := 0%Z; updatedAt := 0%Z |}.

Definition store_of (rows : list Product) : Db :=
  {| db_failure := None; db_products := rows; db_statements := 0 |}.

Definition solar_x100 : Product :=
  product "p1" "Solar Panel X100" (Some "Monocrystalline panel") None true.

Definition solar_accessory : Product :=
  product "p2" "solar panel accessory" None (Some "Mounting kit") true.

Definition wind_turbine : Product :=
  product "p3" "Wind Turbine" None None false.

Definition catalog : Db :=
  store_of [solar_x100; solar_accessory; wind_turbine].

Definition lamp : Product := product "p4" "Lamp" None None true.

Definition x_amp : Product := product "p5" "x_amp" None None true.

Definition lamp_solar : Product :=
  product "p6" "Lamp" None (Some "solar") true.

Definition backslash : Product := product "p7" "\" None None true.

Definition unreachable (rows : list Product) : Db :=
  {| db_failure :=
       Some {| err_code := "ECONNREFUSED";
               err_message := "connect ECONNREFUSED 127.0.0.1:5432" |};
     db_products := rows;
     db_statements := 0 |}.

(** * The other statements of [ProductModel] and the routes that read

    The rest of [src/models/product.model.ts] ([getAll], [getById],
    [getBySlug], [getBySubcategoryId], [getFeatured], [delete],
    [toggleActive], [toggleFeatured]) and the public [GET] routes of the
    products router.  Besides [products] these statements reach
    [product_specifications]: the relational reads load the active
    specification rows of every product they return, and deleting a
    product deletes its specification rows ([onDelete: 'cascade']).

    [id] and [subcategory_id] are [uuid] columns: a parameter compared
    with them is read by the store as a uuid, and a text that is no uuid
    makes the statement fail.  [display_order] is a [varchar] column, so
    [ORDER BY display_order] compares texts under the collation of the
    database ([Collation]). *)

(** A row of [product_specifications].  The JSONB content is kept as its
    text. *)
Record ProductSpecification : Type := {
  spec_id : string;
  spec_productId : string;
  spec_title : string;
  spec_type : string;
  spec_content : string;
  spec_displayOrder : option string;
  spec_isActive : bool;
  spec_createdAt : Z;
  spec_updatedAt : Z
}.

(** The tables [ProductModel] touches. *)
Record Store : Type := {
  st_db : Db;
  st_specifications : list ProductSpecification
}.

(** What a relational read ([with: { specifications: ... }]) delivers for
    one product: the row and the specification rows loaded for it. *)
Definition ProductWithSpecifications : Type :=
  (Product * list ProductSpecification)%type.

Definition Op (T : Type) : Type := Store -> (DbError + T) * Store.

Definition and_then {T U : Type} (t : Op T) (k : T -> Op U) : Op U :=
  fun st =>
    match t st with
    | (inl e, st') => (inl e, st')
    | (inr x, st') => k x st'
    end.

(** A statement that only concerns [products], run on the whole store. *)
Definition on_db {T : Type} (t : Task T) : Op T :=
  fun st =>
    let r := t (st_db st) in
    (fst r, {| st_db := snd r;
               st_specifications := st_specifications st |}).

(** ** Parameters of type [uuid] *)

Module Uuid.

Definition is_xdigit (c : ascii) : bool :=
  let n := N_of_ascii c in
  ((48 <=? n) && (n <=? 57) || (65 <=? n) && (n <=? 70)
   || (97 <=? n) && (n <=? 102))%N.

(** [k] bytes are still to be read, each as two hexadecimal digits; a
    hyphen may follow every second byte except the last.  The digits come
    back in lower case together with the text that is left. *)
Fixpoint read_bytes (k : nat) (src : string) : option (string * string) :=
  match k with
  | O => Some (EmptyString, src)
  | S k' =>
      match src with
      | String a (String b rest) =>
          if is_xdigit a && is_xdigit b then
            let i := (15 - k')%nat in
            let rest' :=
              match rest with
              | String c r =>
                  if (c =? "-")%char && Nat.odd i && (i <? 15)%nat
                  then r else rest
              | EmptyString => rest
              end in
            match read_bytes k' rest' with
            | Some (ds, tail) =>
                Some (String (Pg.lower_char a) (String (Pg.lower_char b) ds),
                      tail)
            | None => None
            end
          else None
      | _ => None
      end
  end.

(** The text the store prints a uuid as: 8-4-4-4-12 digits. *)
Definition print (ds : string) : string :=
  substring 0 8 ds ++ "-" ++ substring 8 4 ds ++ "-"
  ++ substring 12 4 ds ++ "-" ++ substring 16 4 ds ++ "-"
  ++ substring 20 12 ds.

(** The uuid a text is read as, printed; [None] for a text that is no
    uuid.  Braces around the digits are accepted. *)
Definition parse (s : string) : option string :=
  match s with
  | String c r =>
      if (c =? "{")%char then
        match read_bytes 16 r with
        | Some (ds, String d EmptyString) =>
            if (d =? "}")%char then Some (print ds) else None
        | _ => None
        end
      else
        match read_bytes 16 s with
        | Some (ds, EmptyString) => Some (print ds)
        | _ => None
        end
  | EmptyString => None
  end.

End Uuid.

(** A zero byte cannot be part of a text parameter. *)
Fixpoint has_nul (s : string) : bool :=
  match s with
  | EmptyString => false
  | String c s' => (c =? "000")%char || has_nul s'
  end.

Definition invalid_text : DbError :=
  {| err_code := "22021";
     err_message := "invalid byte sequence for encoding UTF8: 0x00" |}.

Definition invalid_uuid : DbError :=
  {| err_code := "22P02";
     err_message := "invalid input syntax for type uuid" |}.

Definition bind_text (s : string) : DbError + string :=
  if has_nul s then inl invalid_text else inr s.

(** A text that is no uuid is refused: as an invalid text when it holds a
    zero byte, as an invalid uuid otherwise. *)
Definition bind_uuid (s : string) : DbError + string :=
  match Uuid.parse s with
  | Some u => inr u
  | None => inl (if has_nul s then invalid_text else invalid_uuid)
  end.

Definition bind_none : DbError + unit := inr tt.

Definition out_of_range : DbError :=
  {| err_code := "22003";
     err_message := "value is out of range for type bigint" |}.

Definition invalid_bigint : DbError :=
  {| err_code := "22P02";
     err_message := "invalid input syntax for type bigint" |}.

(** The parameter of [LIMIT] is read as a [bigint]; the driver sends a
    number from ten to the power 21 on in exponent notation. *)
Definition bind_limit (n : positive) : DbError + positive :=
  if (n <=? 9223372036854775807)%positive then inr n
  else if (n <? 1000000000000000000000)%positive then inl out_of_range
  else inl invalid_bigint.

(** ** Ordering by [display_order] *)

(** The order of texts under the collation of the database. *)
Class Collation : Type := {
  text_leb : string -> string -> bool;
  text_leb_total :
    forall a b, text_leb a b = true \/ text_leb b a = true;
  text_leb_trans :
    forall a b c,
      text_leb a b = true -> text_leb b c = true -> text_leb a c = true
}.

(** [ORDER BY ... ASC] under a comparison; rows that compare equal stay
    in the order of the scan. *)
Fixpoint insert_by {T : Type} (leb : T -> T -> bool) (x : T) (l : list T)
  : list T :=
  match l with
  | [] => [x]
  | y :: l' => if leb x y then x :: y :: l' else y :: insert_by leb x l'
  end.

Fixpoint order_by {T : Type} (leb : T -> T -> bool) (l : list T) : list T :=
  match l with
  | [] => []
  | x :: l' => insert_by leb x (order_by leb l')
  end.

Definition ascending {T : Type} (leb : T -> T -> bool) (l : list T) : Prop :=
  StronglySorted (fun x y => leb x y = true) l.

(** [asc(column)] on a nullable text column: absent values come last. *)
Definition asc_nulls_last {C : Collation} (x y : option string) : bool :=
  match x, y with
  | _, None => true
  | None, Some _ => false
  | Some a, Some b => text_leb a b
  end.

Definition by_displayOrder {C : Collation} (p q : Product) : bool :=
  asc_nulls_last (displayOrder p) (displayOrder q).

(** ** Statements *)

Definition sent (st : Store) : Store :=
  {| st_db := {| db_failure := db_failure (st_db st);
                 db_products := db_products (st_db st);
                 db_statements := S (db_statements (st_db st)) |};
     st_specifications := st_specifications st |}.

Definition with_tables (rows : list Product)
  (specs : list ProductSpecification) (st : Store) : Store :=
  {| st_db := {| db_failure := db_failure (st_db st);
                 db_products := rows;
                 db_statements := db_statements (st_db st) |};
     st_specifications := specs |}.

(** One statement with its parameter: a store that cannot be reached
    rejects it, a parameter the store cannot read makes it fail, otherwise
    it runs on the tables. *)
Definition statement {P T : Type} (param : DbError + P)
  (run : P -> Store -> T * Store) : Op T :=
  fun st =>
    match db_failure (st_db st) with
    | Some e => (inl e, sent st)
    | None =>
        match param with
        | inl e => (inl e, sent st)
        | inr p => let r := run p (sent st) in (inr (fst r), snd r)
        end
    end.

Definition set_isActive (b : bool) (now : Z) (p : Product) : Product :=
  {| id := id p; subcategoryId := subcategoryId p; name := name p;
     slug := slug p; description := description p;
     shortDescription := shortDescription p; price := price p;
     images := images p; coverImage := coverImage p; pdfUrl := pdfUrl p;
     specifications := specifications p; features := features p;
     seoKeywords := seoKeywords p; staticPageUrl := staticPageUrl p;
     displayOrder := displayOrder p; isActive := b;
     isFeatured := isFeatured p; createdAt := createdAt p;
     updatedAt := now |}.

Definition set_isFeatured (b : bool) (now : Z) (p : Product) : Product :=
  {| id := id p; subcategoryId := subcategoryId p; name := name p;
     slug := slug p; description := description p;
     shortDescription := shortDescription p; price := price p;
     images := images p; coverImage := coverImage p; pdfUrl := pdfUrl p;
     specifications := specifications p; features := features p;
     seoKeywords := seoKeywords p; staticPageUrl := staticPageUrl p;
     displayOrder := displayOrder p; isActive := isActive p;
     isFeatured := b; createdAt := createdAt p;
     updatedAt := now |}.

Definition has_id (u : string) (p : Product) : bool := String.eqb (id p) u.

(** [with: { specifications: { where: eq(isActive, true) } }] for one
    product. *)
Definition active_specifications (specs : list ProductSpecification)
  (p : Product) : list ProductSpecification :=
  filter (fun s => String.eqb (spec_productId s) (id p)
                   && Bool.eqb (spec_isActive s) true) specs.

Definition load (st : Store) (p : Product) : ProductWithSpecifications :=
  (p, active_specifications (st_specifications st) p).

Section ProductModel.

Context {C : Collation}.

(** [db.query.products.findMany({ where, with, orderBy:
    asc(displayOrder), limit })]; [limit] is a positive number of rows
    when it is given. *)
Definition findMany (w : option (Product -> bool)) (limit : option positive)
  (st : Store) : list ProductWithSpecifications :=
  let rows :=
    order_by by_displayOrder
      match w with
      | None => db_products (st_db st)
      | Some f => filter f (db_products (st_db st))
      end in
  map (load st)
    match limit with
    | None => rows
    | Some n => firstn (Pos.to_nat n) rows
    end.

(** [db.query.products.findFirst({ where, with })]: the first row of the
    scan that satisfies the condition, [undefined] when there is none. *)
Definition findFirst (w : Product -> bool) (st : Store)
  : option ProductWithSpecifications :=
  match filter w (db_products (st_db st)) with
  | [] => None
  | p :: _ => Some (load st p)
  end.

Definition getAll (includeInactive : bool)
  : Op (list ProductWithSpecifications) :=
  statement bind_none
    (fun _ st =>
       (findMany
          (if includeInactive then None
           else Some (fun p => Bool.eqb (isActive p) true))
          None st, st)).

(** [result || null] *)
Definition getById (ident : string) : Op (option ProductWithSpecifications) :=
  statement (bind_uuid ident)
    (fun u st => (findFirst (has_id u) st, st)).

Definition getBySlug (s : string) : Op (option ProductWithSpecifications) :=
  statement (bind_text s)
    (fun s' st => (findFirst (fun p => String.eqb (slug p) s') st, st)).

Definition getBySubcategoryId (sub : string) (includeInactive : bool)
  : Op (list ProductWithSpecifications) :=
  statement (bind_uuid sub)
    (fun u st =>
       (findMany
          (Some
             (if includeInactive
              then (fun p => String.eqb (subcategoryId p) u)
              else sql_and
                     [ Some (fun p => String.eqb (subcategoryId p) u);
                       Some (fun p => Bool.eqb (isActive p) true) ]))
          None st, st)).

(** [getFeatured(limit = 10)] for a positive [limit]. *)
Definition getFeatured (limit : option positive)
  : Op (list ProductWithSpecifications) :=
  statement
    (bind_limit match limit with
                | Some n => n
                | None => 10%positive
                end)
    (fun n st =>
       (findMany
          (Some
             (sql_and [ Some (fun p => Bool.eqb (isFeatured p) true);
                        Some (fun p => Bool.eqb (isActive p) true) ]))
          (Some n) st, st)).

End ProductModel.

(** [UPDATE products SET ... WHERE id = u RETURNING *]: the rows after the
    statement and the rows it returns. *)
Definition update_where_id (u : string) (f : Product -> Product)
  (rows : list Product) : list Product * list Product :=
  (map (fun p => if has_id u p then f p else p) rows,
   map f (filter (has_id u) rows)).

(** [result.length > 0] *)
Definition non_empty {T : Type} (l : list T) : bool :=
  match l with
  | [] => false
  | _ :: _ => true
  end.

(** [delete(id)]; the specification rows of a deleted product go with
    it. *)
Definition delete (ident : string) : Op bool :=
  statement (bind_uuid ident)
    (fun u st =>
       (non_empty (filter (has_id u) (db_products (st_db st))),
        with_tables
          (filter (fun p => negb (has_id u p)) (db_products (st_db st)))
          (filter (fun s => negb (String.eqb (spec_productId s) u))
             (st_specifications st))
          st)).

(** [toggleActive(id, isActive)]; [now] is the [new Date()] of the
    call. *)
Definition toggleActive (now : Z) (ident : string) (active : bool)
  : Op bool :=
  statement (bind_uuid ident)
    (fun u st =>
       let r := update_where_id u (set_isActive active now)
                  (db_products (st_db st)) in
       (non_empty (snd r), with_tables (fst r) (st_specifications st) st)).

Definition toggleFeatured (now : Z) (ident : string) (featured : bool)
  : Op bool :=
  statement (bind_uuid ident)
    (fun u st =>
       let r := update_where_id u (set_isFeatured featured now)
                  (db_products (st_db st)) in
       (non_empty (snd r), with_tables (fst r) (st_specifications st) st)).

(** What the schema promises of the two tables: [id] is the primary key
    of [products], and every specification row refers to a product. *)
Definition primary_key (st : Store) : Prop :=
  NoDup (map id (db_products (st_db st))).

Definition references_hold (st : Store) : Prop :=
  forall s,
    In s (st_specifications st) ->
    exists p, In p (db_products (st_db st)) /\ id p = spec_productId s.

(** ** The public routes that read one product *)

(** [res.status(n).json(...)]: the bodies the routes send,
    [{ success: true, data }] with one product, with the products of a
    relational read or with the rows of [search], and [{ error }]. *)
Inductive Body : Type :=
| SuccessData (data : ProductWithSpecifications)
| SuccessList (data : list ProductWithSpecifications)
| SuccessSearch (data : list Product)
| ErrorMessage (error : string).

Record Response : Type := {
  status : nat;
  body : Body
}.

Definition respond (n : nat) (b : Body) : Response :=
  {| status := n; body := b |}.

Section Routes.

Context {C : Collation}.

(** [router.get('/:id', ...)].  Lines written to the log are left out. *)
Definition get_by_id_route (ident : string) (st : Store)
  : Response * Store :=
  match ident with
  | EmptyString =>
      (respond 400 (ErrorMessage "Product ID is required"), st)
  | String _ _ =>
      match getById ident st with
      | (inl _, st') =>
          (respond 500 (ErrorMessage "Internal server error"), st')
      | (inr None, st') =>
          (respond 404 (ErrorMessage "Product not found"), st')
      | (inr (Some product), st') =>
          (respond 200 (SuccessData product), st')
      end
  end.

(** [router.get('/slug/:slug', ...)]. *)
Definition get_by_slug_route (s : string) (st : Store)
  : Response * Store :=
  match s with
  | EmptyString =>
      (respond 400 (ErrorMessage "Product slug is required"), st)
  | String _ _ =>
      match getBySlug s st with
      | (inl _, st') =>
          (respond 500 (ErrorMessage "Internal server error"), st')
      | (inr None, st') =>
          (respond 404 (ErrorMessage "Product not found"), st')
      | (inr (Some product), st') =>
          (respond 200 (SuccessData product), st')
      end
  end.

End Routes.

(** ** [cleanData] *)

(** A plain object: its own enumerable properties in the order
    [Object.entries] lists them, every key once; [None] is the value
    [undefined]. *)
Definition JsObject (V : Type) : Type := list (string * option V).

(** [obj[k]]: [undefined] for a key the object lacks. *)
Fixpoint get {V : Type} (obj : JsObject V) (k : string) : option V :=
  match obj with
  | [] => None
  | (k', v) :: rest => if String.eqb k' k then v else get rest k
  end.

(** [k in obj] *)
Definition has_key {V : Type} (obj : JsObject V) (k : string) : bool :=
  existsb (fun kv => String.eqb (fst kv) k) obj.

(** [Object.fromEntries(Object.entries(obj).filter(([_, v]) => v !==
    undefined))] *)
Definition cleanData {V : Type} (obj : JsObject V) : JsObject V :=
  filter (fun kv => match snd kv with
                    | Some _ => true
                    | None => false
                    end) obj.

(** ** The route that lists products *)

(** The query string of [GET /], every parameter given at most once. *)
Record ListQuery : Type := {
  q_includeInactive : option string;
  q_subcategoryId : option string;
  q_featured : option string;
  q_search : option string;
  q_limit : option string
}.

(** [x === 'true'] *)
Definition is_true_text (x : option string) : bool :=
  match x with
  | Some s => String.eqb s "true"
  | None => false
  end.

(** Truthiness of a parameter: present and not empty. *)
Definition given (x : option string) : option string :=
  match x with
  | Some (String c r) => Some (String c r)
  | _ => None
  end.

Module Js.

Definition is_space (c : ascii) : bool :=
  let n := N_of_ascii c in
  ((9 <=? n) && (n <=? 13) || (n =? 32))%N.

Fixpoint trim_start (s : string) : string :=
  match s with
  | String c r => if is_space c then trim_start r else s
  | EmptyString => s
  end.

Definition digit (c : ascii) : option N :=
  let n := N_of_ascii c in
  if ((48 <=? n) && (n <=? 57))%N then Some (n - 48)%N else None.

(** The value of the leading decimal digits, [None] when there is
    none. *)
Fixpoint digits (s : string) (acc : option N) : option N :=
  match s with
  | String c r =>
      match digit c with
      | Some d =>
          digits r (Some (match acc with
                          | Some a => a * 10 + d
                          | None => d
                          end)%N)
      | None => acc
      end
  | EmptyString => acc
  end.

(** [parseInt(s)] where it is a positive integer that a number holds
    exactly: blanks, an optional [+], decimal digits, anything after
    them.  [None] for every other text (no digits, zero, a negative
    number, a hexadecimal numeral, a value above 2^53). *)
Definition parse_positive (s : string) : option positive :=
  let t := trim_start s in
  let t' := match t with
            | String c r => if (c =? "+")%char then r else t
            | EmptyString => t
            end in
  match digits t' None with
  | Some (Npos n) =>
      if (n <=? 9007199254740992)%positive then Some n else None
  | _ => None
  end.

End Js.

Section ListRoute.

Context {TS : TextSearch} {C : Collation}.

(** What [ProductModel.getFeatured(parseInt(limit))] does for a limit
    text that [Js.parse_positive] does not read: the query builder's
    treatment of zero, negative and not-a-number limits is not part of
    this repository. *)
Variable featured_with_other_limit
  : string -> Op (list ProductWithSpecifications).

Definition featured_with (limit : option string)
  : Op (list ProductWithSpecifications) :=
  match given limit with
  | None => getFeatured (Some 10%positive)
  | Some l =>
      match Js.parse_positive l with
      | Some n => getFeatured (Some n)
      | None => featured_with_other_limit l
      end
  end.

Definition answer_list {T : Type} (wrap : T -> Body)
  (r : (DbError + T) * Store) : Response * Store :=
  match r with
  | (inl _, st') =>
      (respond 500 (ErrorMessage "Internal server error"), st')
  | (inr rows, st') => (respond 200 (wrap rows), st')
  end.

(** [router.get('/', ...)].  Lines written to the log are left out. *)
Definition list_route (q : ListQuery) (st : Store) : Response * Store :=
  let includeInactive := is_true_text (q_includeInactive q) in
  let featured := is_true_text (q_featured q) in
  match given (q_search q) with
  | Some searchQuery =>
      answer_list SuccessSearch
        (on_db (search searchQuery includeInactive) st)
  | None =>
      if featured then
        answer_list SuccessList (featured_with (q_limit q) st)
      else
        match given (q_subcategoryId q) with
        | Some subcategoryId =>
            answer_list SuccessList
              (getBySubcategoryId subcategoryId includeInactive st)
        | None =>
            answer_list SuccessList (getAll includeInactive st)
        end
  end.

End ListRoute.

(** The byte order of texts (the [C] collation). *)
#[export] Instance bytewise : Collation.
Proof.
  refine {| text_leb := String.leb |}.
  - apply String.leb_total.
  - intros a b c. unfold String.leb.
    destruct (String.compare a b) eqn:Eab; try discriminate;
      destruct (String.compare b c) eqn:Ebc; try discriminate;
      intros _ _.
    + apply String.compare_eq_iff in Eab, Ebc. subst.
      pose proof (proj2 (String_as_OT.cmp_eq c c) eq_refl) as E.
      unfold String_as_OT.cmp in E. now rewrite E.
    + apply String.compare_eq_iff in Eab. subst. now rewrite Ebc.
    + apply String.compare_eq_iff in Ebc. subst. now rewrite Eab.
    + apply String_as_OT.cmp_lt in Eab, Ebc.
      assert (H : String_as_OT.lt a c)
        by (eapply String_as_OT.lt_trans; eassumption).
      apply String_as_OT.cmp_lt in H. unfold String_as_OT.cmp in H.
      now rewrite H.
Defined.

(** ** Sample store *)

Definition id_lamp : string := "0a1b2c3d-0000-4000-8000-000000000001".
Definition id_panel : string := "0a1b2c3d-0000-4000-8000-000000000002".
Definition id_mill : string := "0a1b2c3d-0000-4000-8000-000000000003".
Definition id_sub : string := "5e6f7a8b-0000-4000-8000-00000000000a".

Definition item (i n sl : string) (ord : option string)
  (active featured : bool) : Product :=
  {| id := i; subcategoryId := id_sub; name := n; slug := sl;
     description := None; shortDescription := None; price := None;
     images := None; coverImage := None; pdfUrl := None;
     specifications := None; features := None; seoKeywords := None;
     staticPageUrl := None; displayOrder := ord; isActive := active;
     isFeatured := featured; createdAt := 0%Z; updatedAt := 0%Z |}.

Definition garden_lamp : Product :=
  item id_lamp "Garden Lamp" "garden-lamp" (Some "2") true true.

Definition roof_panel : Product :=
  item id_panel "Roof Panel" "roof-panel" (Some "10") true false.

Definition wind_mill : Product :=
  item id_mill "Wind Mill" "wind-mill" None false true.

Definition sheet (i pid : string) (active : bool) : ProductSpecification :=
  {| spec_id := i; spec_productId := pid; spec_title := "Dimensions";
     spec_type := "grid"; spec_content := "{}";
     spec_displayOrder := None; spec_isActive := active;
     spec_createdAt := 0%Z; spec_updatedAt := 0%Z |}.

Definition shop : Store :=
  {| st_db := store_of [garden_lamp; roof_panel; wind_mill];
     st_specifications :=
       [ sheet "7c000000-0000-4000-8000-000000000001" id_lamp true;
         sheet "7c000000-0000-4000-8000-000000000002" id_lamp false;
         sheet "7c000000-0000-4000-8000-000000000003" id_mill true ] |}.

Definition only_search (s : string) : ListQuery :=
  {| q_includeInactive := None; q_subcategoryId := None;
     q_featured := None; q_search := Some s; q_limit := None |}.

Definition search_and_more (s : string) : ListQuery :=
  {| q_includeInactive := Some "TRUE"; q_subcategoryId := Some "x";
     q_featured := Some "true"; q_search := Some s; q_limit := Some "-1" |}.

(** * Properties *)

(** ** [LOWER] and [LIKE] *)

Lemma lower_app (a b : string) :
  Pg.lower (a ++ b) = Pg.lower a ++ Pg.lower b.
Proof.
  induction a as [|c a IH]; simpl; [reflexivity | now rewrite IH].
Qed.

Lemma lower_char_backslash (c : ascii) :
  (Pg.lower_char c =? "\")%char = (c =? "\")%char.
Proof.
  destruct c as [b0 b1 b2 b3 b4 b5 b6 b7].
  destruct b0, b1, b2, b3, b4, b5, b6, b7; reflexivity.
Qed.

Lemma no_escape_lower (s : string) :
  Pg.no_escape (Pg.lower s) = Pg.no_escape s.
Proof.
  induction s as [|c s IH]; simpl; [reflexivity|].
  now rewrite lower_char_backslash, IH.
Qed.

(** One step of [%]: it takes nothing, or one character and goes on. *)
Lemma like_from_percent (pat s : string) :
  Pg.like_from (String "%" pat) s
  = Pg.like_from pat s
    || match s with
       | EmptyString => false
       | String _ s' => Pg.like_from (String "%" pat) s'
       end.
Proof. destruct s; reflexivity. Qed.

Lemma like_from_percent_zero (pat s : string) :
  Pg.like_from pat s = true -> Pg.like_from (String "%" pat) s = true.
Proof.
  intros H. rewrite like_from_percent, H. reflexivity.
Qed.

Lemma like_from_percent_any (s : string) : Pg.like_from "%" s = true.
Proof.
  induction s as [|c s IH].
  - reflexivity.
  - rewrite like_from_percent. rewrite IH. apply orb_true_r.
Qed.

Lemma like_from_underscore (pat : string) (c : ascii) (s : string) :
  Pg.like_from (String "_" pat) (String c s) = Pg.like_from pat s.
Proof. reflexivity. Qed.

(** A text free of backslashes, read as a pattern, matches itself. *)
Lemma like_from_self (s pat t : string) :
  Pg.no_escape s = true ->
  Pg.like_from pat t = true ->
  Pg.like_from (s ++ pat) (s ++ t) = true.
Proof.
  intros Hs Hp. induction s as [|c s IH]; [exact Hp|].
  simpl in Hs. apply andb_true_iff in Hs as [Hc Hs].
  specialize (IH Hs).
  change (String c s ++ pat) with (String c (s ++ pat)).
  change (String c s ++ t) with (String c (s ++ t)).
  destruct (c =? "%")%char eqn:E1.
  - apply Ascii.eqb_eq in E1. subst c.
    rewrite like_from_percent.
    rewrite (like_from_percent_zero _ _ IH). apply orb_true_r.
  - destruct (c =? "_")%char eqn:E2.
    + apply Ascii.eqb_eq in E2. subst c. exact IH.
    + simpl. rewrite E1, E2.
      apply negb_true_iff in Hc. rewrite Hc.
      rewrite Ascii.eqb_refl. exact IH.
Qed.

Lemma starts_with_app (q s : string) :
  Pg.starts_with q s = true -> exists r, s = q ++ r.
Proof.
  revert s. induction q as [|c q IH]; intros s H.
  - exists s. reflexivity.
  - destruct s as [|d s]; simpl in H; [discriminate|].
    apply andb_true_iff in H as [Hc H].
    apply Ascii.eqb_eq in Hc. subst d.
    destruct (IH s H) as [r ->]. exists r. reflexivity.
Qed.

(** The patterns [search] builds end in [%]: none of them ends in a
    backslash that escapes nothing. *)
Lemma dangling_escape_percent (pat : string) :
  Pg.dangling_escape (pat ++ "%") = false
  /\ forall c, Pg.dangling_escape (String c pat ++ "%") = false.
Proof.
  induction pat as [|d pat [IH1 IH2]].
  - split; [reflexivity|]. intros c. simpl.
    destruct (c =? "\")%char; reflexivity.
  - split; [apply IH2|]. intros c.
    change (Pg.dangling_escape (String c (String d (pat ++ "%"))) = false).
    simpl Pg.dangling_escape at 1.
    destruct (c =? "\")%char.
    + exact IH1.
    + apply IH2.
Qed.

(** X25: the [LIKE] patterns [search] builds for the [where] condition
    and for the prefix term never end in a backslash that escapes
    nothing, whatever the query: the store does not reject them. *)
Lemma search_patterns_well_formed (query : string) :
  Pg.dangling_escape (Pg.lower (searchPattern query)) = false
  /\ Pg.dangling_escape (Pg.lower (query ++ "%")) = false.
Proof.
  unfold searchPattern. split.
  - change ("%" ++ query ++ "%") with (String "%" query ++ "%").
    rewrite lower_app. apply (dangling_escape_percent (Pg.lower (String "%" query))).
  - rewrite lower_app. apply (dangling_escape_percent (Pg.lower query)).
Qed.

(** ** [ORDER BY ... DESC] *)

Section OrderBy.

Context {T : Type} (key : T -> Q).

Lemma insert_desc_perm (x : T) (l : list T) :
  Permutation (insert_desc key x l) (x :: l).
Proof.
  induction l as [|y l IH]; simpl; [reflexivity|].
  destruct (Qle_bool (key y) (key x)); [reflexivity|].
  rewrite IH. apply perm_swap.
Qed.

Lemma order_by_desc_perm (l : list T) :
  Permutation (order_by_desc key l) l.
Proof.
  induction l as [|x l IH]; simpl; [reflexivity|].
  rewrite insert_desc_perm. now apply perm_skip.
Qed.

Lemma order_by_desc_In (x : T) (l : list T) :
  In x (order_by_desc key l) <-> In x l.
Proof.
  split; apply Permutation_in;
    [apply order_by_desc_perm | symmetry; apply order_by_desc_perm].
Qed.

Lemma insert_desc_sorted (x : T) (l : list T) :
  sorted_desc key l -> sorted_desc key (insert_desc key x l).
Proof.
  unfold sorted_desc. intros Hl.
  induction Hl as [|y l Hl IH Hy]; simpl.
  - constructor; constructor.
  - destruct (Qle_bool (key y) (key x)) eqn:E.
    + apply Qle_bool_iff in E.
      constructor; [constructor; assumption|].
      constructor; [exact E|].
      eapply Forall_impl; [|exact Hy].
      intros z Hz. simpl in Hz. eapply Qle_trans; eassumption.
    + constructor; [exact IH|].
      eapply Permutation_Forall;
        [symmetry; apply insert_desc_perm|].
      constructor; [|exact Hy].
      apply Qlt_le_weak, Qnot_le_lt.
      intros H. apply Qle_bool_iff in H. congruence.
Qed.

Lemma order_by_desc_sorted (l : list T) :
  sorted_desc key (order_by_desc key l).
Proof.
  induction l as [|x l IH]; simpl.
  - constructor.
  - now apply insert_desc_sorted.
Qed.

End OrderBy.

Lemma insert_desc_map {T U : Type} (f : T -> U) (key : U -> Q)
  (x : T) (l : list T) :
  insert_desc key (f x) (map f l)
  = map f (insert_desc (fun y => key (f y)) x l).
Proof.
  induction l as [|y l IH]; simpl; [reflexivity|].
  destruct (Qle_bool (key (f y)) (key (f x))); simpl; [reflexivity|].
  now rewrite IH.
Qed.

Lemma order_by_desc_map {T U : Type} (f : T -> U) (key : U -> Q)
  (l : list T) :
  order_by_desc key (map f l)
  = map f (order_by_desc (fun y => key (f y)) l).
Proof.
  induction l as [|x l IH]; simpl; [reflexivity|].
  now rewrite IH, insert_desc_map.
Qed.

Lemma order_by_desc_ext {T : Type} (k1 k2 : T -> Q) (l : list T) :
  (forall x, k1 x = k2 x) -> order_by_desc k1 l = order_by_desc k2 l.
Proof.
  intros H. induction l as [|x l IH]; simpl; [reflexivity|].
  rewrite IH. generalize (order_by_desc k2 l) as m.
  induction m as [|y m IHm]; simpl; [reflexivity|].
  now rewrite IHm, !H.
Qed.

Lemma filter_map_comm {T U : Type} (f : T -> U) (w : U -> bool)
  (l : list T) :
  filter w (map f l) = map f (filter (fun y => w (f y)) l).
Proof.
  induction l as [|x l IH]; simpl; [reflexivity|].
  destruct (w (f x)); simpl; now rewrite IH.
Qed.

(** ** [search] *)

Section SearchFacts.

Context {TS : TextSearch}.

Lemma where_clause_unfold (query : string) (includeInactive : bool)
  (p : Product) :
  where_clause query includeInactive p
  = (includeInactive || isActive p) && match_clause query p.
Proof.
  unfold where_clause, sql_and.
  destruct includeInactive; simpl; rewrite andb_true_r;
    [reflexivity|].
  now destruct (isActive p).
Qed.

Lemma search_reachable (query : string) (includeInactive : bool) (db : Db) :
  db_failure db = None ->
  fst (search query includeInactive db)
  = inr (order_by_desc (relevance query)
           (filter (where_clause query includeInactive) (db_products db))).
Proof.
  intros H. unfold search, select_from_products. now rewrite H.
Qed.

Lemma search_resolved (query : string) (includeInactive : bool) (db : Db)
  (rows : list Product) :
  fst (search query includeInactive db) = inr rows ->
  db_failure db = None
  /\ rows = order_by_desc (relevance query)
              (filter (where_clause query includeInactive) (db_products db)).
Proof.
  unfold search, select_from_products.
  destruct (db_failure db); simpl; intros H; [discriminate|].
  injection H as <-. split; reflexivity.
Qed.

Lemma search_rows_In (query : string) (includeInactive : bool) (db : Db)
  (rows : list Product) (p : Product) :
  fst (search query includeInactive db) = inr rows ->
  (In p rows
   <-> In p (db_products db)
       /\ (includeInactive || isActive p) && match_clause query p = true).
Proof.
  intros H. apply search_resolved in H as [_ ->].
  now rewrite order_by_desc_In, filter_In, where_clause_unfold.
Qed.

(** The store a call leaves behind has the rows and the reachability it
    found. *)
Lemma search_reads_only (query : string) (includeInactive : bool) (db : Db) :
  db_products (snd (search query includeInactive db)) = db_products db
  /\ db_failure (snd (search query includeInactive db)) = db_failure db.
Proof.
  unfold search, select_from_products.
  destruct (db_failure db) eqn:E; simpl; rewrite ?E; split; reflexivity.
Qed.

Lemma prefix_bonus_nonneg (query : string) (p : Product) :
  0 <= prefix_bonus query p.
Proof.
  unfold prefix_bonus.
  destruct (Pg.like _ _); [discriminate | apply Qle_refl].
Qed.

Lemma like_prefix_pattern (query s : string) :
  Pg.no_escape query = true ->
  Pg.starts_with (Pg.lower query) s = true ->
  Pg.like s (Pg.lower (query ++ "%")) = true.
Proof.
  intros Hq Hs. apply starts_with_app in Hs as [r ->].
  unfold Pg.like. rewrite lower_app.
  apply like_from_self.
  - now rewrite no_escape_lower.
  - apply like_from_percent_any.
Qed.

Lemma like_search_pattern_self (query : string) :
  Pg.no_escape query = true ->
  Pg.like (Pg.lower query) (Pg.lower (searchPattern query)) = true.
Proof.
  intros Hq. unfold Pg.like, searchPattern.
  change ("%" ++ query ++ "%") with (String "%" (query ++ "%")).
  simpl Pg.lower at 1.
  change (Pg.lower_char "%") with "%"%char.
  apply like_from_percent_zero.
  rewrite lower_app.
  replace (Pg.lower query) with (Pg.lower query ++ "") at 2.
  - apply like_from_self;
      [now rewrite no_escape_lower | reflexivity].
  - generalize (Pg.lower query) as s.
    induction s as [|c s IH]; simpl; [reflexivity | now rewrite IH].
Qed.

Lemma with_empty_texts_where (query : string) (includeInactive : bool)
  (p : Product) :
  where_clause query includeInactive (with_empty_texts p)
  = where_clause query includeInactive p.
Proof.
  rewrite !where_clause_unfold.
  destruct p as [? ? ? ? d sd ? ? ? ? ? ? ? ? ? ? ? ? ?].
  unfold match_clause, strategy_pattern,
    strategy_fulltext, strategy_trigram, strategy_word, match_document,
    with_empty_texts, set_shortDescription, set_description, null_as_empty.
  destruct d, sd; reflexivity.
Qed.

Lemma with_empty_texts_relevance (query : string) (p : Product) :
  relevance query (with_empty_texts p) = relevance query p.
Proof.
  destruct p as [? ? ? ? d sd ? ? ? ? ? ? ? ? ? ? ? ? ?].
  unfold relevance, exact_bonus, prefix_bonus, contains_bonus,
    fulltext_rank, rank_document, with_empty_texts,
    set_shortDescription, set_description, null_as_empty.
  destruct d, sd; reflexivity.
Qed.

End SearchFacts.

(** ** The claims about [search] *)

Section Claims.

Context {TS : TextSearch}.



(** C3: whatever [search] returns without inactive rows, it also returns
    with them. *)
Theorem search_active_subset (query : string) (db : Db)
  (rows : list Product) :
  fst (search query false db) = inr rows ->
  exists rows',
    fst (search query true db) = inr rows' /\ incl rows rows'.
Proof.
  intros H. apply search_resolved in H as [Hdb ->].
  eexists. split; [apply (search_reachable _ _ _ Hdb)|].
  intros p. rewrite !order_by_desc_In, !filter_In, !where_clause_unfold.
  intros [Hin Hw]. split; [exact Hin|].
  apply andb_true_iff in Hw as [_ Hm]. now rewrite Hm.
Qed.




(** C7: when the store cannot be reached, [search] rejects with the
    store's own error, resolves with no rows, and has sent its one
    statement once. *)
Theorem search_store_unavailable (query : string) (includeInactive : bool)
  (db : Db) (e : DbError) :
  db_failure db = Some e ->
  fst (search query includeInactive db) = inl e
  /\ (forall rows, fst (search query includeInactive db) <> inr rows)
  /\ db_statements (snd (search query includeInactive db))
     = S (db_statements db).
Proof.
  intros Hdb. unfold search, select_from_products. rewrite Hdb. simpl.
  repeat split. intros rows H. discriminate.
Qed.


(** C9: a row with an absent description (or short description) and the
    same row with the empty text there satisfy the [where] condition
    alike and have the same relevance; and [search] over a table whose
    absent texts are replaced by empty ones returns the rows it returned
    before, in the same order, with that replacement made. *)
Theorem search_null_as_empty (query : string) (includeInactive : bool) :
  (forall p,
      where_clause query includeInactive (set_description None p)
      = where_clause query includeInactive (set_description (Some "") p)
      /\ relevance query (set_description None p)
         = relevance query (set_description (Some "") p))
  /\ (forall p,
      where_clause query includeInactive (set_shortDescription None p)
      = where_clause query includeInactive
          (set_shortDescription (Some "") p)
      /\ relevance query (set_shortDescription None p)
         = relevance query (set_shortDescription (Some "") p))
  /\ (forall db,
      fst (search query includeInactive
             {| db_failure := db_failure db;
                db_products := map with_empty_texts (db_products db);
                db_statements := db_statements db |})
      = match fst (search query includeInactive db) with
        | inl e => inl e
        | inr rows => inr (map with_empty_texts rows)
        end).
Proof.
  split; [|split].
  - intros p. rewrite !where_clause_unfold. split; reflexivity.
  - intros p. rewrite !where_clause_unfold. split; reflexivity.
  - intros db. unfold search, select_from_products. simpl.
    destruct (db_failure db); simpl; [reflexivity|].
    f_equal. rewrite filter_map_comm, order_by_desc_map.
    f_equal.
    rewrite (order_by_desc_ext _ (relevance query)
               _ (with_empty_texts_relevance query)).
    f_equal. apply filter_ext. intros p.
    apply with_empty_texts_where.
Qed.


End Claims.

(** ** The claims on concrete stores *)

#[local] Existing Instance RefStore.store.

(** The scenarios of the specification. *)
Example scenario_solar_panel :
  fst (search "solar panel" false catalog)
  = inr [solar_x100; solar_accessory].
Proof. vm_compute. reflexivity. Qed.

Example scenario_typo :
  fst (search "slar pnel" false catalog)
  = inr [solar_x100; solar_accessory]
  /\ relevance "slar pnel" solar_x100 < relevance "solar panel" solar_x100.
Proof. split; vm_compute; reflexivity. Qed.

Example scenario_empty_store :
  fst (search "anything" true (store_of [])) = inr [].
Proof. reflexivity. Qed.

Example like_percent : Pg.like "lamp" "%%%" = true.
Proof. reflexivity. Qed.

Example like_underscore : Pg.like "lamp" "_amp%" = true.
Proof. reflexivity. Qed.

Example like_escape : Pg.like "a\b" "%a\b%" = false.
Proof. reflexivity. Qed.

Example lower_mixed : Pg.lower "Solar Panel X100" = "solar panel x100".
Proof. reflexivity. Qed.

Example word_similarity_documented :
  RefStore.trgm_word_similarity "word" "two words" == 8 # 10.
Proof. vm_compute. reflexivity. Qed.





Lemma search_active_subset_witness :
  exists rows',
    fst (search "turbine panel" true catalog) = inr rows'
    /\ incl [solar_x100; solar_accessory] rows'.
Proof.
  apply (search_active_subset "turbine panel" catalog).
  vm_compute. reflexivity.
Defined.





Lemma search_store_unavailable_witness :
  fst (search "solar" true (unreachable [solar_x100]))
  = inl {| err_code := "ECONNREFUSED";
           err_message := "connect ECONNREFUSED 127.0.0.1:5432" |}
  /\ (forall rows,
         fst (search "solar" true (unreachable [solar_x100])) <> inr rows)
  /\ db_statements (snd (search "solar" true (unreachable [solar_x100])))
     = 1%nat.
Proof.
  apply (search_store_unavailable "solar" true (unreachable [solar_x100])).
  reflexivity.
Defined.



(** * The other statements of [ProductModel] *)

(** ** [ORDER BY ... ASC] *)

Section OrderByAsc.

Context {T : Type} (leb : T -> T -> bool).

Hypothesis leb_total : forall x y, leb x y = true \/ leb y x = true.

Hypothesis leb_trans :
  forall x y z, leb x y = true -> leb y z = true -> leb x z = true.

Lemma insert_by_perm (x : T) (l : list T) :
  Permutation (insert_by leb x l) (x :: l).
Proof.
  induction l as [|y l IH]; simpl; [reflexivity|].
  destruct (leb x y); [reflexivity|].
  rewrite IH. apply perm_swap.
Qed.

Lemma order_by_perm (l : list T) : Permutation (order_by leb l) l.
Proof.
  induction l as [|x l IH]; simpl; [reflexivity|].
  rewrite insert_by_perm. now apply perm_skip.
Qed.

Lemma insert_by_ascending (x : T) (l : list T) :
  ascending leb l -> ascending leb (insert_by leb x l).
Proof.
  unfold ascending. intros Hl.
  induction Hl as [|y l Hl IH Hy]; simpl.
  - constructor; constructor.
  - destruct (leb x y) eqn:E.
    + constructor; [constructor; assumption|].
      constructor; [exact E|].
      eapply Forall_impl; [|exact Hy].
      intros z Hz. simpl in Hz. eapply leb_trans; eassumption.
    + constructor; [exact IH|].
      eapply Permutation_Forall; [symmetry; apply insert_by_perm|].
      constructor; [|exact Hy].
      destruct (leb_total x y) as [H | H]; [congruence | exact H].
Qed.

Lemma order_by_ascending (l : list T) : ascending leb (order_by leb l).
Proof.
  induction l as [|x l IH]; simpl.
  - constructor.
  - now apply insert_by_ascending.
Qed.

(** Taking rows out of an ordered list and inserting commute. *)
Lemma filter_insert_by (f : T -> bool) (x : T) (l : list T) :
  ascending leb l ->
  filter f (insert_by leb x l)
  = if f x then insert_by leb x (filter f l) else filter f l.
Proof.
  unfold ascending. intros Hl.
  induction Hl as [|y l Hl IH Hy]; simpl.
  - destruct (f x); reflexivity.
  - destruct (leb x y) eqn:E; simpl.
    + destruct (f x) eqn:Fx, (f y) eqn:Fy; simpl; rewrite ?E; try reflexivity.
      (* x is kept, y is dropped: x still goes in front of what is left *)
      assert (Hall : Forall (fun z => leb x z = true) (filter f l)).
      { apply Forall_forall. intros z Hz. apply filter_In in Hz as [Hz _].
        rewrite Forall_forall in Hy. eapply leb_trans; [exact E|].
        now apply Hy. }
      destruct (filter f l) as [|z m]; [reflexivity|].
      simpl. inversion Hall as [|? ? Hz _]. now rewrite Hz.
    + rewrite IH. destruct (f x), (f y); simpl; rewrite ?E; reflexivity.
Qed.

Lemma filter_order_by (f : T -> bool) (l : list T) :
  filter f (order_by leb l) = order_by leb (filter f l).
Proof.
  induction l as [|x l IH]; simpl; [reflexivity|].
  rewrite filter_insert_by by apply order_by_ascending.
  rewrite IH. destruct (f x); reflexivity.
Qed.

End OrderByAsc.

Lemma insert_by_map {T U : Type} (g : T -> U) (leb : U -> U -> bool)
  (x : T) (l : list T) :
  insert_by leb (g x) (map g l)
  = map g (insert_by (fun a b => leb (g a) (g b)) x l).
Proof.
  induction l as [|y l IH]; simpl; [reflexivity|].
  destruct (leb (g x) (g y)); simpl; [reflexivity | now rewrite IH].
Qed.

Lemma order_by_map {T U : Type} (g : T -> U) (leb : U -> U -> bool)
  (l : list T) :
  order_by leb (map g l)
  = map g (order_by (fun a b => leb (g a) (g b)) l).
Proof.
  induction l as [|x l IH]; simpl; [reflexivity|].
  now rewrite IH, insert_by_map.
Qed.

Lemma order_by_ext {T : Type} (leb1 leb2 : T -> T -> bool) (l : list T) :
  (forall x y, leb1 x y = leb2 x y) ->
  order_by leb1 l = order_by leb2 l.
Proof.
  intros H. induction l as [|x l IH]; simpl; [reflexivity|].
  rewrite IH. generalize (order_by leb2 l) as m.
  induction m as [|y m IHm]; simpl; [reflexivity|].
  now rewrite IHm, H.
Qed.

(** [ORDER BY key DESC] is the ascending order of the reversed
    comparison of keys. *)
Lemma order_by_desc_as_order_by {T : Type} (key : T -> Q) (l : list T) :
  order_by_desc key l
  = order_by (fun x y => Qle_bool (key y) (key x)) l.
Proof.
  induction l as [|x l IH]; simpl; [reflexivity|].
  rewrite IH. generalize (order_by (fun x y => Qle_bool (key y) (key x)) l).
  intros m. induction m as [|y m IHm]; simpl; [reflexivity|].
  now rewrite IHm.
Qed.

Lemma filter_order_by_desc {T : Type} (key : T -> Q) (f : T -> bool)
  (l : list T) :
  filter f (order_by_desc key l) = order_by_desc key (filter f l).
Proof.
  rewrite !order_by_desc_as_order_by. apply filter_order_by.
  - intros x y.
    destruct (Qle_bool (key y) (key x)) eqn:E; [now left | right].
    apply Qle_bool_iff, Qlt_le_weak, Qnot_le_lt.
    intros H. apply Qle_bool_iff in H. congruence.
  - intros x y z H1 H2. apply Qle_bool_iff in H1, H2.
    apply Qle_bool_iff. eapply Qle_trans; eassumption.
Qed.

Section DisplayOrder.

Context {C : Collation}.

Lemma by_displayOrder_total (p q : Product) :
  by_displayOrder p q = true \/ by_displayOrder q p = true.
Proof.
  unfold by_displayOrder, asc_nulls_last.
  destruct (displayOrder p), (displayOrder q); auto.
  apply text_leb_total.
Qed.

Lemma by_displayOrder_trans (p q r : Product) :
  by_displayOrder p q = true -> by_displayOrder q r = true ->
  by_displayOrder p r = true.
Proof.
  unfold by_displayOrder, asc_nulls_last.
  destruct (displayOrder p), (displayOrder q), (displayOrder r);
    try discriminate; auto.
  apply text_leb_trans.
Qed.

End DisplayOrder.

(** ** Statements against the store *)

Lemma statement_reachable {P T : Type} (param : DbError + P)
  (run : P -> Store -> T * Store) (st : Store) (p : P) :
  db_failure (st_db st) = None ->
  param = inr p ->
  statement param run st = (inr (fst (run p (sent st))), snd (run p (sent st))).
Proof. intros H ->. unfold statement. now rewrite H. Qed.

Lemma statement_unreachable {P T : Type} (param : DbError + P)
  (run : P -> Store -> T * Store) (st : Store) (e : DbError) :
  db_failure (st_db st) = Some e ->
  statement param run st = (inl e, sent st).
Proof. intros H. unfold statement. now rewrite H. Qed.

Lemma statement_bad_parameter {P T : Type} (param : DbError + P)
  (run : P -> Store -> T * Store) (st : Store) (e : DbError) :
  db_failure (st_db st) = None ->
  param = inl e ->
  statement param run st = (inl e, sent st).
Proof. intros H ->. unfold statement. now rewrite H. Qed.

Lemma bind_uuid_parsed (s u : string) :
  Uuid.parse s = Some u -> bind_uuid s = inr u.
Proof. intros Hp. unfold bind_uuid. now rewrite Hp. Qed.

Lemma bind_uuid_rejected (s : string) :
  Uuid.parse s = None ->
  exists e, bind_uuid s = inl e
            /\ (err_code e = "22P02" \/ err_code e = "22021").
Proof.
  intros Hp. unfold bind_uuid. rewrite Hp.
  destruct (has_nul s).
  - exists invalid_text. split; [reflexivity | now right].
  - exists invalid_uuid. split; [reflexivity | now left].
Qed.

Lemma filter_has_id_none (u : string) (rows : list Product) :
  filter (has_id u) rows = [] <-> (forall p, In p rows -> id p <> u).
Proof.
  split.
  - intros H p Hin Hid.
    assert (Hp : In p (filter (has_id u) rows)).
    { apply filter_In. split; [exact Hin|].
      unfold has_id. now apply String.eqb_eq. }
    rewrite H in Hp. contradiction.
  - intros H. induction rows as [|q rows IH]; [reflexivity|].
    simpl. unfold has_id at 1.
    destruct (String.eqb_spec (id q) u) as [E | E].
    + exfalso. apply (H q); [now left | exact E].
    + apply IH. intros p Hp. apply H. now right.
Qed.

(** With a primary key, the rows with a given id are the one row. *)
Lemma filter_has_id (u : string) (rows : list Product) (p : Product) :
  NoDup (map id rows) -> In p rows -> id p = u ->
  filter (has_id u) rows = [p].
Proof.
  intros Hnd Hin <-. induction rows as [|q rows IH]; [contradiction|].
  simpl in Hnd. inversion Hnd as [|? ? Hq Hnd']. subst.
  simpl. unfold has_id at 1. destruct Hin as [-> | Hin].
  - rewrite String.eqb_refl. f_equal.
    apply filter_has_id_none. intros r Hr E.
    apply Hq. rewrite <- E. now apply in_map.
  - destruct (String.eqb_spec (id q) (id p)) as [E | E].
    + exfalso. apply Hq. rewrite E. now apply in_map.
    + now apply IH.
Qed.

(** ** Reads *)

Section Reads.

Context {C : Collation}.

(** X1: [getById] with an id that is no uuid: the statement fails, and the
    answer is an error, never [null]. *)
Theorem getById_malformed_id (ident : string) (st : Store) :
  db_failure (st_db st) = None ->
  Uuid.parse ident = None ->
  exists e,
    getById ident st = (inl e, sent st)
    /\ (err_code e = "22P02" \/ err_code e = "22021").
Proof.
  intros Hdb Hp. destruct (bind_uuid_rejected ident Hp) as (e & He & Hc).
  exists e. split; [|exact Hc].
  unfold getById. now apply statement_bad_parameter.
Qed.

Lemma getById_row (ident u : string) (st : Store) (p : Product) :
  db_failure (st_db st) = None ->
  Uuid.parse ident = Some u ->
  NoDup (map id (db_products (st_db st))) ->
  In p (db_products (st_db st)) -> id p = u ->
  fst (getById ident st)
  = inr (Some (p, active_specifications (st_specifications st) p)).
Proof.
  intros Hdb Hp Hnd Hin Hid. unfold getById.
  rewrite (statement_reachable _ _ st u Hdb (bind_uuid_parsed _ _ Hp)).
  simpl. unfold findFirst. simpl.
  now rewrite (filter_has_id u _ p Hnd Hin Hid).
Qed.



Lemma findMany_all (w : option (Product -> bool)) (st : Store) :
  map fst (findMany w None st)
  = order_by by_displayOrder
      match w with
      | None => db_products (st_db st)
      | Some f => filter f (db_products (st_db st))
      end.
Proof.
  unfold findMany. rewrite map_map. simpl. apply map_id.
Qed.

Lemma getAll_reachable (includeInactive : bool) (st : Store) :
  db_failure (st_db st) = None ->
  getAll includeInactive st
  = (inr (map (load st)
            (order_by by_displayOrder
               (filter (fun p => includeInactive || isActive p)
                  (db_products (st_db st))))),
     sent st).
Proof.
  intros Hdb. unfold getAll.
  rewrite (statement_reachable _ _ st tt Hdb eq_refl). simpl.
  unfold findMany, load. simpl.
  destruct includeInactive; simpl.
  - rewrite forallb_filter_id; [reflexivity|].
    apply forallb_forall. reflexivity.
  - rewrite (filter_ext (fun p => Bool.eqb (isActive p) true)
               (fun p => isActive p)); [reflexivity|].
    intros p. now destruct (isActive p).
Qed.


End Reads.

Lemma filter_filter_and {T : Type} (f g : T -> bool) (l : list T) :
  filter f (filter g l) = filter (fun x => g x && f x) l.
Proof.
  induction l as [|x l IH]; simpl; [reflexivity|].
  destruct (g x); simpl; [destruct (f x)|]; now rewrite IH.
Qed.

Lemma In_firstn {T : Type} (n : nat) (l : list T) (x : T) :
  In x (firstn n l) -> In x l.
Proof.
  intros H. rewrite <- (firstn_skipn n l). apply in_or_app. now left.
Qed.

Lemma bind_limit_accepted (n m : positive) :
  bind_limit n = inr m -> m = n.
Proof.
  unfold bind_limit.
  destruct (n <=? 9223372036854775807)%positive.
  - intros H. now injection H as <-.
  - destruct (n <? 1000000000000000000000)%positive; discriminate.
Qed.

Section ReadsCompose.

Context {C : Collation}.




End ReadsCompose.

(** ** Writes *)

Lemma delete_reachable (ident u : string) (st : Store) :
  db_failure (st_db st) = None ->
  Uuid.parse ident = Some u ->
  delete ident st
  = (inr (non_empty (filter (has_id u) (db_products (st_db st)))),
     with_tables
       (filter (fun p => negb (has_id u p)) (db_products (st_db st)))
       (filter (fun s => negb (String.eqb (spec_productId s) u))
          (st_specifications st))
       (sent st)).
Proof.
  intros Hdb Hp. unfold delete.
  now rewrite (statement_reachable _ _ st u Hdb (bind_uuid_parsed _ _ Hp)).
Qed.

Lemma non_empty_filter {T : Type} (f : T -> bool) (l : list T) :
  non_empty (filter f l) = true <-> exists x, In x l /\ f x = true.
Proof.
  split.
  - destruct (filter f l) as [|x m] eqn:E; [discriminate|]. intros _.
    exists x. apply filter_In. rewrite E. now left.
  - intros (x & Hx). apply filter_In in Hx.
    destruct (filter f l); [contradiction | reflexivity].
Qed.

(** X8: [delete]: [true] exactly when a row had the id; afterwards no row has
    it, the other rows are there as before, and the specification rows of
    the deleted product are gone while the others stay. *)
Theorem delete_effect (ident u : string) (st : Store) :
  db_failure (st_db st) = None ->
  Uuid.parse ident = Some u ->
  exists deleted,
    fst (delete ident st) = inr deleted
    /\ (deleted = true
        <-> exists p, In p (db_products (st_db st)) /\ id p = u)
    /\ (forall p,
           In p (db_products (st_db (snd (delete ident st))))
           <-> In p (db_products (st_db st)) /\ id p <> u)
    /\ (forall s,
           In s (st_specifications (snd (delete ident st)))
           <-> In s (st_specifications st) /\ spec_productId s <> u).
Proof.
  intros Hdb Hp. rewrite (delete_reachable _ _ _ Hdb Hp). eexists.
  split; [reflexivity|]. simpl. split; [|split].
  - rewrite non_empty_filter. unfold has_id.
    split; intros (p & Hin & H); exists p; split; try assumption;
      now apply String.eqb_eq.
  - intros p. rewrite filter_In. unfold has_id.
    rewrite negb_true_iff, String.eqb_neq. reflexivity.
  - intros s. rewrite filter_In.
    rewrite negb_true_iff, String.eqb_neq. reflexivity.
Qed.

(** X9: After [delete], [getById] with the same id answers [null], and a
    second [delete] answers [false] and leaves both tables as the first
    left them. *)
Theorem delete_then_lookup {C : Collation} (ident u : string) (st : Store) :
  db_failure (st_db st) = None ->
  Uuid.parse ident = Some u ->
  let st' := snd (delete ident st) in
  fst (getById ident st') = inr None
  /\ fst (delete ident st') = inr false
  /\ db_products (st_db (snd (delete ident st'))) = db_products (st_db st')
  /\ st_specifications (snd (delete ident st')) = st_specifications st'.
Proof.
  intros Hdb Hp st'.
  assert (Hdb' : db_failure (st_db st') = None).
  { unfold st'. now rewrite (delete_reachable _ _ _ Hdb Hp). }
  assert (Hnone : filter (has_id u) (db_products (st_db st')) = []).
  { apply filter_has_id_none. intros p Hin.
    unfold st' in Hin. rewrite (delete_reachable _ _ _ Hdb Hp) in Hin.
    simpl in Hin. apply filter_In in Hin as [_ Hin].
    unfold has_id in Hin. now apply negb_true_iff, String.eqb_neq in Hin. }
  split; [|split; [|split]].
  - unfold getById.
    rewrite (statement_reachable _ _ st' u Hdb' (bind_uuid_parsed _ _ Hp)).
    simpl. unfold findFirst. simpl. now rewrite Hnone.
  - rewrite (delete_reachable _ _ _ Hdb' Hp). simpl. now rewrite Hnone.
  - rewrite (delete_reachable _ _ _ Hdb' Hp). simpl.
    apply forallb_filter_id, forallb_forall. intros p Hin.
    apply negb_true_iff.
    destruct (has_id u p) eqn:E; [|reflexivity].
    assert (H : In p (filter (has_id u) (db_products (st_db st'))))
      by (apply filter_In; now split).
    rewrite Hnone in H. contradiction.
  - rewrite (delete_reachable _ _ _ Hdb' Hp). simpl.
    apply forallb_filter_id, forallb_forall. intros s Hin.
    unfold st' in Hin. rewrite (delete_reachable _ _ _ Hdb Hp) in Hin.
    simpl in Hin. now apply filter_In in Hin as [_ Hin].
Qed.


Lemma toggleActive_reachable (now : Z) (ident u : string) (active : bool)
  (st : Store) :
  db_failure (st_db st) = None ->
  Uuid.parse ident = Some u ->
  toggleActive now ident active st
  = (inr (non_empty (filter (has_id u) (db_products (st_db st)))),
     with_tables
       (map (fun p => if has_id u p then set_isActive active now p else p)
          (db_products (st_db st)))
       (st_specifications st) (sent st)).
Proof.
  intros Hdb Hp. unfold toggleActive.
  rewrite (statement_reachable _ _ st u Hdb (bind_uuid_parsed _ _ Hp)).
  simpl. do 2 f_equal.
  now destruct (filter (has_id u) (db_products (st_db st))).
Qed.

Lemma toggleFeatured_reachable (now : Z) (ident u : string)
  (featured : bool) (st : Store) :
  db_failure (st_db st) = None ->
  Uuid.parse ident = Some u ->
  toggleFeatured now ident featured st
  = (inr (non_empty (filter (has_id u) (db_products (st_db st)))),
     with_tables
       (map (fun p => if has_id u p then set_isFeatured featured now p else p)
          (db_products (st_db st)))
       (st_specifications st) (sent st)).
Proof.
  intros Hdb Hp. unfold toggleFeatured.
  rewrite (statement_reachable _ _ st u Hdb (bind_uuid_parsed _ _ Hp)).
  simpl. do 2 f_equal.
  now destruct (filter (has_id u) (db_products (st_db st))).
Qed.

(** An update that keeps ids keeps the column of ids. *)
Lemma map_id_update (u : string) (f : Product -> Product)
  (rows : list Product) :
  (forall p, id (f p) = id p) ->
  map id (map (fun p => if has_id u p then f p else p) rows) = map id rows.
Proof.
  intros Hf. rewrite map_map. apply map_ext. intros p.
  destruct (has_id u p); [apply Hf | reflexivity].
Qed.



Lemma relevance_set_isActive {TS : TextSearch} (query : string) (b : bool)
  (now : Z) (p : Product) :
  relevance query (set_isActive b now p) = relevance query p.
Proof. reflexivity. Qed.

Lemma relevance_set_isFeatured {TS : TextSearch} (query : string)
  (b : bool) (now : Z) (p : Product) :
  relevance query (set_isFeatured b now p) = relevance query p.
Proof. reflexivity. Qed.

Lemma search_after_update {TS : TextSearch} (query : string)
  (includeInactive : bool) (g : Product -> Product) (db db' : Db) :
  db_failure db = None ->
  db_failure db' = None ->
  db_products db' = map g (db_products db) ->
  (forall p, relevance query (g p) = relevance query p) ->
  (forall p, where_clause query includeInactive (g p)
             = where_clause query includeInactive p) ->
  fst (search query includeInactive db')
  = match fst (search query includeInactive db) with
    | inl e => inl e
    | inr rows => inr (map g rows)
    end.
Proof.
  intros Hdb Hdb' Hrows Hrel Hw.
  rewrite !search_reachable by assumption. rewrite Hrows. f_equal.
  rewrite filter_map_comm, order_by_desc_map.
  f_equal.
  rewrite (order_by_desc_ext _ (relevance query) _ Hrel).
  f_equal. apply filter_ext. exact Hw.
Qed.




(** ** What the writes keep *)

Lemma NoDup_map_filter {T U : Type} (f : T -> U) (g : T -> bool)
  (l : list T) :
  NoDup (map f l) -> NoDup (map f (filter g l)).
Proof.
  induction l as [|x l IH]; simpl; intros H; [exact H|].
  inversion H as [|? ? Hx Hl]. subst.
  destruct (g x); simpl; [|now apply IH].
  constructor; [|now apply IH].
  intros Hin. apply Hx. apply in_map_iff in Hin as (y & Hy & Hin).
  apply filter_In in Hin as [Hin _]. apply in_map_iff. now exists y.
Qed.

Lemma sent_keeps (st : Store) :
  primary_key st /\ references_hold st ->
  primary_key (sent st) /\ references_hold (sent st).
Proof. intros H. exact H. Qed.

Lemma statement_keeps {P T : Type} (param : DbError + P)
  (run : P -> Store -> T * Store) (st : Store) :
  (forall p st0,
      primary_key st0 /\ references_hold st0 ->
      primary_key (snd (run p st0)) /\ references_hold (snd (run p st0))) ->
  primary_key st /\ references_hold st ->
  primary_key (snd (statement param run st))
  /\ references_hold (snd (statement param run st)).
Proof.
  intros Hrun H. unfold statement.
  destruct (db_failure (st_db st)); [exact H|].
  destruct param as [e | p]; [exact H|].
  apply Hrun. exact H.
Qed.

Lemma update_keeps (u : string) (f : Product -> Product) (st : Store) :
  (forall p, id (f p) = id p) ->
  primary_key st /\ references_hold st ->
  let st' := with_tables
               (map (fun p => if has_id u p then f p else p)
                  (db_products (st_db st)))
               (st_specifications st) st in
  primary_key st' /\ references_hold st'.
Proof.
  intros Hf [Hpk Href] st'. split.
  - unfold primary_key, st'. simpl. now rewrite map_id_update.
  - intros s Hs. destruct (Href s Hs) as (p & Hin & Hid).
    exists (if has_id u p then f p else p). split.
    + unfold st'. simpl. apply in_map_iff. now exists p.
    + destruct (has_id u p); [now rewrite Hf | exact Hid].
Qed.

(** X16: [delete], [toggleActive] and [toggleFeatured] keep the primary key
    of [products] and leave no specification row without its product,
    whatever the id and whether or not the store can be reached. *)
Theorem writes_keep_schema (now : Z) (ident : string) (flag : bool)
  (st : Store) :
  primary_key st ->
  references_hold st ->
  (primary_key (snd (delete ident st))
   /\ references_hold (snd (delete ident st)))
  /\ (primary_key (snd (toggleActive now ident flag st))
      /\ references_hold (snd (toggleActive now ident flag st)))
  /\ (primary_key (snd (toggleFeatured now ident flag st))
      /\ references_hold (snd (toggleFeatured now ident flag st))).
Proof.
  intros Hpk Href. split; [|split].
  - apply statement_keeps; [|now split].
    intros u st0 [Hpk0 Href0]. simpl. split.
    + unfold primary_key. simpl. now apply NoDup_map_filter.
    + intros s Hs. simpl in Hs. apply filter_In in Hs as [Hs Hne].
      destruct (Href0 s Hs) as (p & Hin & Hid).
      exists p. split; [|exact Hid].
      simpl. apply filter_In. split; [exact Hin|].
      unfold has_id. now rewrite Hid.
  - apply statement_keeps; [|now split].
    intros u st0 H0. simpl.
    now apply (update_keeps u (set_isActive flag now) st0).
  - apply statement_keeps; [|now split].
    intros u st0 H0. simpl.
    now apply (update_keeps u (set_isFeatured flag now) st0).
Qed.

(** X17: On a store that cannot be reached every statement of the model is
    rejected with the error of the store, and the tables are as they
    were. *)
Theorem unreachable_store_rejects {C : Collation} (now : Z)
  (ident : string) (flag : bool) (limit : option positive) (st : Store)
  (e : DbError) :
  db_failure (st_db st) = Some e ->
  getAll flag st = (inl e, sent st)
  /\ getById ident st = (inl e, sent st)
  /\ getBySlug ident st = (inl e, sent st)
  /\ getBySubcategoryId ident flag st = (inl e, sent st)
  /\ getFeatured limit st = (inl e, sent st)
  /\ delete ident st = (inl e, sent st)
  /\ toggleActive now ident flag st = (inl e, sent st)
  /\ toggleFeatured now ident flag st = (inl e, sent st).
Proof.
  intros H. repeat split; now apply statement_unreachable.
Qed.

(** ** The routes *)

Section RouteFacts.

Context {C : Collation}.


(** X19: [GET /slug/:slug] on a store that can be reached, for a slug without
    a zero byte: never 500; 404 exactly when no row has the slug. *)
Theorem get_by_slug_route_answers (s : string) (st : Store) :
  db_failure (st_db st) = None ->
  has_nul s = false ->
  s <> "" ->
  status (fst (get_by_slug_route s st)) <> 500%nat
  /\ (status (fst (get_by_slug_route s st)) = 404%nat
      <-> forall p, In p (db_products (st_db st)) -> slug p <> s)
  /\ (status (fst (get_by_slug_route s st)) = 200%nat
      <-> exists p, In p (db_products (st_db st)) /\ slug p = s).
Proof.
  intros Hdb Hn Hne. destruct s as [|c r]; [contradiction|].
  unfold get_by_slug_route, getBySlug.
  assert (Hb : bind_text (String c r) = inr (String c r))
    by (unfold bind_text; now rewrite Hn).
  rewrite (statement_reachable _ _ st _ Hdb Hb).
  simpl fst. simpl snd. unfold findFirst. cbn [st_db sent db_products].
  destruct (filter (fun p => String.eqb (slug p) (String c r))
              (db_products (st_db st))) as [|q rest] eqn:E; simpl.
  - split; [discriminate|]. split.
    + split; [|reflexivity]. intros _ p Hin Hs.
      assert (Hq : In p (filter (fun p => String.eqb (slug p) (String c r))
                           (db_products (st_db st))))
        by (apply filter_In; split; [exact Hin | now apply String.eqb_eq]).
      rewrite E in Hq. contradiction.
    + split; [discriminate|]. intros (p & Hin & Hs).
      assert (Hq : In p (filter (fun p => String.eqb (slug p) (String c r))
                           (db_products (st_db st))))
        by (apply filter_In; split; [exact Hin | now apply String.eqb_eq]).
      rewrite E in Hq. contradiction.
  - assert (Hq : In q (filter (fun p => String.eqb (slug p) (String c r))
                         (db_products (st_db st))))
      by (rewrite E; now left).
    apply filter_In in Hq as [Hin Hs]. apply String.eqb_eq in Hs.
    split; [discriminate|]. split.
    + split; [discriminate|]. intros H. exfalso. now apply (H q).
    + split; [|reflexivity]. intros _. now exists q.
Qed.

End RouteFacts.

Lemma on_db_search {TS : TextSearch} (query : string)
  (includeInactive : bool) (st : Store) :
  on_db (search query includeInactive) st
  = (fst (search query includeInactive (st_db st)), sent st).
Proof.
  unfold on_db, search, select_from_products, sent.
  destruct (db_failure (st_db st)); reflexivity.
Qed.

Section ListRouteFacts.

Context {TS : TextSearch} {C : Collation}.

Variable other : string -> Op (list ProductWithSpecifications).

(** X20: [GET /] with a search text that is not empty answers from [search]
    alone: two requests with the same search text and the same reading
    of [includeInactive] get the same answer, whatever [featured],
    [subcategoryId] and [limit] say. *)
Theorem list_route_search_first (q q' : ListQuery) (s : string)
  (st : Store) :
  given (q_search q) = Some s ->
  q_search q' = q_search q ->
  is_true_text (q_includeInactive q') = is_true_text (q_includeInactive q) ->
  list_route other q' st = list_route other q st.
Proof.
  intros Hs Hq Hi. unfold list_route. now rewrite Hq, Hi, Hs.
Qed.


(** X22: An empty [search] and an [includeInactive] or [featured] that is not
    the text [true] count as absent. *)
Theorem list_route_absent_parameters (q : ListQuery) (st : Store) :
  list_route other q st
  = list_route other
      {| q_includeInactive :=
           if is_true_text (q_includeInactive q) then Some "true" else None;
         q_subcategoryId := given (q_subcategoryId q);
         q_featured :=
           if is_true_text (q_featured q) then Some "true" else None;
         q_search := given (q_search q);
         q_limit := q_limit q |}
      st.
Proof.
  unfold list_route. simpl.
  assert (Hg : forall x, given (given x) = given x)
    by (intros [[|c r]|]; reflexivity).
  assert (Ht : forall x,
             is_true_text (if is_true_text x then Some "true" else None)
             = is_true_text x)
    by (intros x; destruct (is_true_text x); reflexivity).
  now rewrite !Hg, !Ht.
Qed.

(** X23: When the store cannot be reached, [GET /] answers 500 with
    [Internal server error], for a search, a subcategory, the whole
    list, and a featured list whose limit is absent or a positive
    number. *)
Theorem list_route_store_failure (q : ListQuery) (st : Store)
  (e : DbError) :
  db_failure (st_db st) = Some e ->
  (given (q_search q) <> None
   \/ is_true_text (q_featured q) = false
   \/ given (q_limit q) = None
   \/ exists l n, given (q_limit q) = Some l
                  /\ Js.parse_positive l = Some n) ->
  list_route other q st
  = (respond 500 (ErrorMessage "Internal server error"), sent st).
Proof.
  intros Hdb Hq. unfold list_route.
  destruct (given (q_search q)) as [s|] eqn:Hs.
  - rewrite on_db_search. unfold answer_list, search, select_from_products.
    now rewrite Hdb.
  - destruct (is_true_text (q_featured q)) eqn:Hf.
    + unfold featured_with.
      destruct Hq as [Hq | [Hq | [Hq | (l & n & Hl & Hn)]]];
        try congruence.
      * rewrite Hq. unfold answer_list, getFeatured.
        now rewrite (statement_unreachable _ _ st e Hdb).
      * rewrite Hl, Hn. unfold answer_list, getFeatured.
        now rewrite (statement_unreachable _ _ st e Hdb).
    + destruct (given (q_subcategoryId q)).
      * unfold answer_list, getBySubcategoryId.
        now rewrite (statement_unreachable _ _ st e Hdb).
      * unfold answer_list, getAll.
        now rewrite (statement_unreachable _ _ st e Hdb).
Qed.

(** X24: [GET /?subcategoryId=...] with a text that is no uuid (and neither
    search nor featured): status 500, not an empty list. *)
Theorem list_route_malformed_subcategory (q : ListQuery) (sub : string)
  (st : Store) :
  db_failure (st_db st) = None ->
  given (q_search q) = None ->
  is_true_text (q_featured q) = false ->
  given (q_subcategoryId q) = Some sub ->
  Uuid.parse sub = None ->
  list_route other q st
  = (respond 500 (ErrorMessage "Internal server error"), sent st).
Proof.
  intros Hdb Hs Hf Hsub Hp. unfold list_route. rewrite Hs, Hf, Hsub.
  destruct (bind_uuid_rejected _ Hp) as (e & He & _).
  unfold answer_list, getBySubcategoryId.
  now rewrite (statement_bad_parameter _ _ st e Hdb He).
Qed.

End ListRouteFacts.

(** ** The statements on the sample store *)

Lemma shop_primary_key : primary_key shop.
Proof.
  unfold primary_key. simpl.
  repeat constructor; simpl; intuition discriminate.
Qed.

Lemma shop_references_hold : references_hold shop.
Proof.
  intros s [<- | [<- | [<- | []]]]; simpl.
  - exists garden_lamp. split; [now left | reflexivity].
  - exists garden_lamp. split; [now left | reflexivity].
  - exists wind_mill. split; [right; right; now left | reflexivity].
Qed.

Example display_order_is_text :
  option_map (map (fun r => name (fst r)))
    match fst (getAll true shop) with
    | inr rows => Some rows
    | inl _ => None
    end
  = Some ["Roof Panel"; "Garden Lamp"; "Wind Mill"].
Proof. vm_compute. reflexivity. Qed.

Lemma getById_malformed_id_witness :
  exists e,
    getById "garden-lamp" shop = (inl e, sent shop)
    /\ (err_code e = "22P02" \/ err_code e = "22021").
Proof.
  apply (getById_malformed_id "garden-lamp" shop); reflexivity.
Defined.







Lemma delete_effect_witness :
  exists deleted,
    fst (delete id_lamp shop) = inr deleted
    /\ (deleted = true
        <-> exists p, In p (db_products (st_db shop)) /\ id p = id_lamp)
    /\ (forall p,
           In p (db_products (st_db (snd (delete id_lamp shop))))
           <-> In p (db_products (st_db shop)) /\ id p <> id_lamp)
    /\ (forall s,
           In s (st_specifications (snd (delete id_lamp shop)))
           <-> In s (st_specifications shop)
               /\ spec_productId s <> id_lamp).
Proof.
  apply (delete_effect id_lamp id_lamp shop); reflexivity.
Defined.

Lemma delete_then_lookup_witness :
  fst (getById id_lamp (snd (delete id_lamp shop))) = inr None
  /\ fst (delete id_lamp (snd (delete id_lamp shop))) = inr false.
Proof.
  destruct (delete_then_lookup id_lamp id_lamp shop eq_refl eq_refl)
    as (H1 & H2 & _).
  split; assumption.
Defined.







Lemma writes_keep_schema_witness :
  primary_key (snd (delete id_lamp shop))
  /\ references_hold (snd (delete id_lamp shop)).
Proof.
  apply (writes_keep_schema 0 id_lamp true shop
           shop_primary_key shop_references_hold).
Defined.

Lemma unreachable_store_rejects_witness :
  delete id_lamp
    {| st_db := unreachable [garden_lamp]; st_specifications := [] |}
  = (inl {| err_code := "ECONNREFUSED";
            err_message := "connect ECONNREFUSED 127.0.0.1:5432" |},
     sent {| st_db := unreachable [garden_lamp];
             st_specifications := [] |}).
Proof.
  apply (unreachable_store_rejects 0 id_lamp true None
           {| st_db := unreachable [garden_lamp]; st_specifications := [] |}).
  reflexivity.
Defined.


Lemma get_by_slug_route_answers_witness :
  status (fst (get_by_slug_route "roof-panel" shop)) <> 500%nat
  /\ (status (fst (get_by_slug_route "roof-panel" shop)) = 404%nat
      <-> forall p, In p (db_products (st_db shop)) -> slug p <> "roof-panel")
  /\ (status (fst (get_by_slug_route "roof-panel" shop)) = 200%nat
      <-> exists p, In p (db_products (st_db shop)) /\ slug p = "roof-panel").
Proof.
  apply (get_by_slug_route_answers "roof-panel" shop);
    [reflexivity | reflexivity | discriminate].
Defined.

Lemma list_route_search_first_witness :
  list_route (fun _ => getFeatured None) (search_and_more "lamp") shop
  = list_route (fun _ => getFeatured None) (only_search "lamp") shop.
Proof.
  apply (list_route_search_first (fun _ => getFeatured None)
           (only_search "lamp") (search_and_more "lamp") "lamp" shop);
    reflexivity.
Defined.


Lemma list_route_store_failure_witness :
  list_route (fun _ => getFeatured None) (only_search "lamp")
    {| st_db := unreachable [garden_lamp]; st_specifications := [] |}
  = (respond 500 (ErrorMessage "Internal server error"),
     sent {| st_db := unreachable [garden_lamp];
             st_specifications := [] |}).
Proof.
  apply (list_route_store_failure (fun _ => getFeatured None)
           (only_search "lamp")
           {| st_db := unreachable [garden_lamp]; st_specifications := [] |}
           {| err_code := "ECONNREFUSED";
              err_message := "connect ECONNREFUSED 127.0.0.1:5432" |}).
  - reflexivity.
  - left. discriminate.
Defined.

Lemma list_route_malformed_subcategory_witness :
  list_route (fun _ => getFeatured None)
    {| q_includeInactive := None; q_subcategoryId := Some "lamps";
       q_featured := None; q_search := None; q_limit := None |}
    shop
  = (respond 500 (ErrorMessage "Internal server error"), sent shop).
Proof.
  apply (list_route_malformed_subcategory (fun _ => getFeatured None)
           {| q_includeInactive := None; q_subcategoryId := Some "lamps";
              q_featured := None; q_search := None; q_limit := None |}
           "lamps" shop);
    reflexivity.
Defined.

(** ** [cleanData] *)

Lemma get_absent {V : Type} (obj : JsObject V) (k : string) :
  ~ In k (map fst obj) -> get obj k = None.
Proof.
  induction obj as [|[k' v] rest IH]; simpl; intros H; [reflexivity|].
  destruct (String.eqb_spec k' k) as [E | E].
  - exfalso. apply H. now left.
  - apply IH. intros Hin. apply H. now right.
Qed.

(** X26: [cleanData] changes what no property reads as: every key reads
    the same before and after, and the keys that are left are exactly
    those that did not read as [undefined]. *)
Theorem cleanData_reads {V : Type} (obj : JsObject V) (k : string) :
  NoDup (map fst obj) ->
  get (cleanData obj) k = get obj k
  /\ (has_key (cleanData obj) k = true <-> get obj k <> None).
Proof.
  intros Hnd. induction obj as [|[k' v] rest IH]; simpl.
  - split; [reflexivity|]. split; [discriminate | now intros H].
  - inversion Hnd as [|? ? Hk Hrest]. subst.
    destruct (IH Hrest) as [IHget IHkey].
    assert (Hclean : forall x, In x (map fst (cleanData rest)) ->
                               In x (map fst rest)).
    { intros x Hx. apply in_map_iff in Hx as (kv & <- & Hin).
      apply filter_In in Hin as [Hin _]. now apply in_map. }
    destruct v as [v|]; simpl.
    + destruct (String.eqb_spec k' k) as [E | E]; simpl.
      * split; [reflexivity|]. split; [discriminate | reflexivity].
      * split; [exact IHget | exact IHkey].
    + destruct (String.eqb_spec k' k) as [E | E].
      * subst k'. split.
        -- apply get_absent. intros H. apply Hk. now apply Hclean.
        -- split; [|now intros H].
           intros H. exfalso. apply Hk. apply Hclean.
           unfold has_key in H. apply existsb_exists in H as (kv & Hin & Hkv).
           apply String.eqb_eq in Hkv. rewrite <- Hkv. now apply in_map.
      * split; [exact IHget | exact IHkey].
Qed.

Lemma cleanData_reads_witness :
  get (cleanData [("name", Some "Lamp"); ("price", None); ("slug", Some "l")])
    "price"
  = get [("name", Some "Lamp"); ("price", None); ("slug", Some "l")] "price"
  /\ (has_key
        (cleanData [("name", Some "Lamp"); ("price", None);
                    ("slug", Some "l")]) "price" = true
      <-> get [("name", Some "Lamp"); ("price", None); ("slug", Some "l")]
            "price" <> None).
Proof.
  apply (cleanData_reads
           [("name", Some "Lamp"); ("price", None); ("slug", Some "l")]
           "price").
  simpl. repeat constructor; simpl; intuition discriminate.
Defined.
